(** * fgc: Thorup-style coreset sampling on weighted graphs

    A shallow embedding of the sampling routines of [fgc]
    ([ScopedSyntheticVertex], [sample_from_graph], [thorup_d], [get_costs],
    [thorup_sample_mincost]) and the properties established about them.

    Conventions of the embedding.
    - The routines are instantiated on boost's [adjacency_list] with [vecS]
      vertex storage: a vertex descriptor is its index, so [Vertex := nat].
      The graph is undirected ([thorup_d] wires [r -> synthetic] and searches
      from the synthetic vertex, which only makes sense undirected).
    - Edge costs are [double] in the source; here they are exact integers
      ([Z]), so that negative values are representable and sums are exact.
    - [boost::dijkstra_shortest_paths], the random generator [wy::WyRand] and
      [assert_connected] (declared in graph.h) are not part of the files
      under study: they are section variables, the "capability interface"
      of the design.  [Reference] gives executable instances of them.
    - Every routine returns the graph it leaves behind next to its result,
      since the scope of the synthetic vertex mutates the graph in place.
    - The only unbounded loop is the predecessor walk of [get_costs]; it
      runs on fuel, and [Diverged] stands for a walk that no fuel ends.
    - [new edge_cost[nv]] is not initialised: its contents are a parameter. *)

From Stdlib Require Import List ZArith Lia Bool Arith PeanoNat Permutation.
Import ListNotations.

Set Implicit Arguments.

(** ** Graphs *)

Definition Vertex := nat.
Definition edge_cost := Z.
Definition Edge := (Vertex * Vertex * edge_cost)%type.

Definition e_src (e : Edge) : Vertex := fst (fst e).
Definition e_dst (e : Edge) : Vertex := snd (fst e).
Definition e_weight (e : Edge) : edge_cost := snd e.

Record Graph := mkGraph {
  num_vertices : nat;
  edges : list Edge
}.

Definition num_edges (g : Graph) : nat := length (edges g).

(** [boost::vertices(x)]: the descriptors [0 .. n-1]. *)
Definition vertices (g : Graph) : list Vertex := seq 0 (num_vertices g).

(** Every edge joins two vertices of the graph: the invariant boost
    maintains for an [adjacency_list]. *)
Definition edge_in_range (n : nat) (e : Edge) : Prop :=
  e_src e < n /\ e_dst e < n.

Definition wf_graph (g : Graph) : Prop :=
  Forall (edge_in_range (num_vertices g)) (edges g).

(** [boost::add_vertex]: the new descriptor is the old vertex count. *)
Definition add_vertex (g : Graph) : Graph * Vertex :=
  (mkGraph (S (num_vertices g)) (edges g), num_vertices g).

(** [boost::add_edge] on [vecS] storage: an endpoint beyond the current
    vertex count enlarges the graph to [max(u,v) + 1] vertices. *)
Definition add_edge (u v : Vertex) (w : edge_cost) (g : Graph) : Graph :=
  mkGraph (Nat.max (num_vertices g) (S (Nat.max u v)))
          (edges g ++ [(u, v, w)]).

Definition incident (v : Vertex) (e : Edge) : bool :=
  (e_src e =? v) || (e_dst e =? v).

(** [boost::clear_vertex]: drops every edge incident to [v]. *)
Definition clear_vertex (v : Vertex) (g : Graph) : Graph :=
  mkGraph (num_vertices g) (filter (fun e => negb (incident v e)) (edges g)).

Definition shift_down (v u : Vertex) : Vertex :=
  if v <? u then pred u else u.

(** [boost::remove_vertex] on [vecS] storage: descriptors above [v] move
    down by one. *)
Definition remove_vertex (v : Vertex) (g : Graph) : Graph :=
  mkGraph (pred (num_vertices g))
          (map (fun e => (shift_down v (e_src e), shift_down v (e_dst e), e_weight e))
               (edges g)).

(** ** ScopedSyntheticVertex *)

Module ScopedSyntheticVertex.

(** Constructor: [vtx_(boost::add_vertex(ref_))]. *)
Definition acquire (g : Graph) : Graph * Vertex := add_vertex g.

(** Destructor: [clear_vertex] then [remove_vertex]. *)
Definition release (vtx : Vertex) (g : Graph) : Graph :=
  remove_vertex vtx (clear_vertex vtx g).

End ScopedSyntheticVertex.

(** ** Results of an operation *)

Inductive error : Type :=
| InvalidInput   (* assert_connected rejected the graph *)
| OutOfRange.    (* [pid2ind.at(i)] on a missing key *)

Inductive outcome (A : Type) : Type :=
| Returned (a : A)
| Thrown (e : error)
| Diverged.      (* the loop never exits: no amount of fuel is enough *)

Arguments Returned {A} a.
Arguments Thrown {A} e.
Arguments Diverged {A}.

Definition is_exit {A} (o : outcome A) : bool :=
  match o with Diverged => false | _ => true end.

(** Wiring: one zero-weight edge [synthetic -> v] per member of [F], in
    order (lines 182-183 and 224-226). *)
Definition wire_from (synthetic_vertex : Vertex) (F : list Vertex) (g : Graph) : Graph :=
  fold_left (fun g' v => add_edge synthetic_vertex v 0%Z g') F g.

(** The same with the endpoints in [thorup_d]'s order, [v -> synthetic]
    (lines 80 and 87). *)
Definition wire_to (synthetic_vertex : Vertex) (F : list Vertex) (g : Graph) : Graph :=
  fold_left (fun g' v => add_edge v synthetic_vertex 0%Z g') F g.

(** [std::swap(r, R.back()); R.pop_back()] with [r = R[idx]]. *)
Fixpoint set_nth (idx : nat) (x : Vertex) (l : list Vertex) : list Vertex :=
  match l, idx with
  | [], _ => []
  | _ :: t, 0 => x :: t
  | h :: t, S i => h :: set_nth i x t
  end.

Definition swap_pop (idx : nat) (R : list Vertex) : list Vertex :=
  removelast (set_nth idx (last R 0) R).

(** [d[x] <= minv] pruning: [remove_if] keeps the others in order. *)
Definition prune (d : list edge_cost) (minv : edge_cost) (R : list Vertex) : list Vertex :=
  filter (fun x => negb (nth x d 0 <=? minv)%Z) R.

Definition sum_costs (l : list edge_cost) : edge_cost :=
  fold_left Z.add l 0%Z.

(** [std::ceil(21. * k * logn / eps)] with [eps = 0.5] and
    [logn = log2(n)], read over the reals: the least [m] with
    [n^(42k) <= 2^m]. *)
Definition samples_per_round (k n : nat) : nat :=
  Z.to_nat (Z.log2_up (Z.of_nat n ^ Z.of_nat (42 * k))).

(** [3 * logn] converted to [size_t]: the greatest [m] with [2^m <= n^3]. *)
Definition max_rounds (n : nat) : nat :=
  Z.to_nat (Z.log2 (Z.of_nat n ^ 3)).

Section Sampling.

(** *** The capabilities *)

(** The generator: its state and one call of [rng()]. *)
Variable RNG : Type.
Variable rng_seed : N -> RNG.
Variable rng_next : RNG -> N * RNG.

(** [boost::dijkstra_shortest_paths(x, source, ...)]: the distance map
    and the predecessor map, one entry per vertex of [x]. *)
Variable dijkstra_shortest_paths : Graph -> Vertex -> list edge_cost * list Vertex.

(** [assert_connected] of graph.h, taken as a parameter: [true] when the
    check passes.  What a failed check does follows the design's error
    table: the operation stops with [InvalidInput]. *)
Variable assert_connected : Graph -> bool.

(** The contents of a freshly allocated [new edge_cost[n]]: indeterminate. *)
Variable uninitialised : nat -> list edge_cost.

(** [rng() % size]. *)
Definition draw (rng : RNG) (size : nat) : nat * RNG :=
  let (x, rng') := rng_next rng in
  (N.to_nat (x mod N.of_nat size), rng').

(** *** sample_from_graph (Algorithm D) *)

Record sfg_state := mkSfg {
  sfg_graph : Graph;
  sfg_R : list Vertex;
  sfg_F : list Vertex;
  sfg_rng : RNG
}.

(** Lines 177-180: [for(i = 0; i < e && R.size(); ++i) F.emplace_back(R[rng() % R.size()])]. *)
Fixpoint draw_samples (e : nat) (R F : list Vertex) (rng : RNG) : list Vertex * RNG :=
  match e with
  | 0 => (F, rng)
  | S e' =>
      match R with
      | [] => (F, rng)
      | _ :: _ =>
          let (j, rng') := draw rng (length R) in
          draw_samples e' R (F ++ [nth j R 0]) rng'
      end
  end.

(** The graph handed to Dijkstra in a round (lines 182-187). *)
Definition sfg_query (synthetic_vertex : Vertex) (F : list Vertex) (g : Graph) : Graph :=
  wire_from synthetic_vertex F g.

(** One iteration of the loop of lines 174-203. *)
Definition sfg_round (samples_per_round : nat) (synthetic_vertex : Vertex)
           (st : sfg_state) : sfg_state :=
  let (F', rng1) := draw_samples samples_per_round (sfg_R st) (sfg_F st) (sfg_rng st) in
  let g1 := sfg_query synthetic_vertex F' (sfg_graph st) in
  let distances := fst (dijkstra_shortest_paths g1 synthetic_vertex) in
  let g2 := clear_vertex synthetic_vertex g1 in
  let (j, rng2) := draw rng1 (length (sfg_R st)) in
  let el := nth j (sfg_R st) 0 in
  let minv := nth el distances 0%Z in
  mkSfg g2 (prune distances minv (sfg_R st)) F' rng2.

Fixpoint sfg_loop (iterations samples_per_round : nat) (synthetic_vertex : Vertex)
         (st : sfg_state) : sfg_state :=
  match iterations with
  | 0 => st
  | S it =>
      match sfg_R st with
      | [] => st
      | _ :: _ => sfg_loop it samples_per_round synthetic_vertex
                           (sfg_round samples_per_round synthetic_vertex st)
      end
  end.

(** [sample_from_graph(x, samples_per_round, iterations, container, seed)]:
    the graph after the call and the container returned. *)
Definition sample_from_graph (x : Graph) (samples_per_round iterations : nat)
           (container : list Vertex) (seed : N) : Graph * list Vertex :=
  let R := vertices x in
  let rng := rng_seed seed in
  let (x1, synthetic_vertex) := ScopedSyntheticVertex.acquire x in
  let st := sfg_loop iterations samples_per_round synthetic_vertex
                     (mkSfg x1 R container rng) in
  let x2 := clear_vertex synthetic_vertex (sfg_graph st) in
  (ScopedSyntheticVertex.release synthetic_vertex x2, sfg_F st).

(** *** thorup_d (Algorithm E) *)

Record td_state := mkTd {
  td_graph : Graph;
  td_R : list Vertex;
  td_F : list Vertex;
  td_distances : list edge_cost;
  td_rng : RNG
}.

(** Lines 77-83: [nperround] draws, each moved from [R] to [F]. *)
Fixpoint td_take (j : nat) (synthetic_vertex : Vertex) (st : td_state) : td_state :=
  match j with
  | 0 => st
  | S j' =>
      let (idx, rng') := draw (td_rng st) (length (td_R st)) in
      let r := nth idx (td_R st) 0 in
      td_take j' synthetic_vertex
              (mkTd (add_edge r synthetic_vertex 0%Z (td_graph st))
                    (swap_pop idx (td_R st))
                    (td_F st ++ [r])
                    (td_distances st)
                    rng')
  end.

(** Lines 76-90: the sampling step of a round. *)
Definition td_sample (nperround : nat) (synthetic_vertex : Vertex) (st : td_state) : td_state :=
  if nperround <? length (td_R st)
  then td_take nperround synthetic_vertex st
  else mkTd (wire_to synthetic_vertex (td_R st) (td_graph st))
            []
            (td_F st ++ td_R st)
            (td_distances st)
            (td_rng st).

(** Lines 99-101: the pivot and the pruning. *)
Definition td_prune (st : td_state) : td_state :=
  let (idx, rng') := draw (td_rng st) (length (td_R st)) in
  let randel := nth idx (td_R st) 0 in
  let minv := nth randel (td_distances st) 0%Z in
  mkTd (td_graph st) (prune (td_distances st) minv (td_R st))
       (td_F st) (td_distances st) rng'.

(** Lines 92-93: Dijkstra from the synthetic vertex. *)
Definition td_search (synthetic_vertex : Vertex) (st : td_state) : td_state :=
  mkTd (td_graph st) (td_R st) (td_F st)
       (fst (dijkstra_shortest_paths (td_graph st) synthetic_vertex))
       (td_rng st).

(** One iteration of the loop of lines 75-102; [by the break of line 98]
    the pruning is skipped when the pool is empty. *)
Definition td_round (nperround : nat) (synthetic_vertex : Vertex) (st : td_state) : td_state :=
  let st1 := td_search synthetic_vertex (td_sample nperround synthetic_vertex st) in
  match td_R st1 with
  | [] => st1
  | _ :: _ => td_prune st1
  end.

Fixpoint td_loop (maxnumrounds nperround : nat) (synthetic_vertex : Vertex)
         (st : td_state) : td_state :=
  match maxnumrounds with
  | 0 => st
  | S m =>
      match td_R st with
      | [] => st
      | _ :: _ => td_loop m nperround synthetic_vertex
                          (td_round nperround synthetic_vertex st)
      end
  end.

(** The state in which the loop of [thorup_d] ends. *)
Definition td_run (x : Graph) (rng : RNG) (nperround maxnumrounds : nat) : td_state :=
  let (x1, synthetic_vertex) := ScopedSyntheticVertex.acquire x in
  td_loop maxnumrounds nperround synthetic_vertex
          (mkTd x1 (vertices x) [] (uninitialised (num_vertices x1)) rng).

(** [thorup_d(x, rng, nperround, maxnumrounds)]: the graph and the
    generator after the call, and the pair (F, cost). *)
Definition thorup_d (x : Graph) (rng : RNG) (nperround maxnumrounds : nat)
  : Graph * RNG * outcome (list Vertex * edge_cost) :=
  if negb (assert_connected x) then (x, rng, Thrown InvalidInput)
  else
    let synthetic_vertex := num_vertices x in
    let nv := S (num_vertices x) in
    let st := td_run x rng nperround maxnumrounds in
    let x' := ScopedSyntheticVertex.release synthetic_vertex (td_graph st) in
    if negb (assert_connected (td_graph st)) then (x', td_rng st, Thrown InvalidInput)
    else
      let cost := sum_costs (firstn (nv - 1) (td_distances st)) in
      (x', td_rng st, Returned (td_F st, cost)).

(** *** get_costs *)

(** [flat_hash_map<v_int_t, uint32_t> pid2ind]: the bindings, newest
    first.  [pid2ind[k] = i] on a key already bound overwrites, which the
    newest-first lookup reproduces. *)
Definition pid2ind_t := list (Vertex * nat).

Fixpoint pid2ind_find (k : Vertex) (m : pid2ind_t) : option nat :=
  match m with
  | [] => None
  | (k', i) :: t => if k' =? k then Some i else pid2ind_find k t
  end.

(** Lines 232-234: [pid2ind[index[*it++]] = i] for [i] from [0]. *)
Fixpoint pid2ind_fill (i : nat) (container : list Vertex) (m : pid2ind_t) : pid2ind_t :=
  match container with
  | [] => m
  | v :: rest => pid2ind_fill (S i) rest ((v, i) :: m)
  end.

(** Lines 244-247: [while(newparent != synthetic_vertex)].  The source
    loop has no bound; [None] is "still running when the fuel ran out". *)
Fixpoint walk (fuel : nat) (p : list Vertex) (synthetic_vertex parent newparent : Vertex)
  : option Vertex :=
  if newparent =? synthetic_vertex then Some parent
  else match fuel with
       | 0 => None
       | S fuel' => walk fuel' p synthetic_vertex newparent (nth newparent p 0)
       end.

(** Lines 243-257 for one [i]: the value stored in [assignments[i]]. *)
Definition resolve (fuel : nat) (p : list Vertex) (synthetic_vertex : Vertex)
           (pid2ind : pid2ind_t) (i : nat) : outcome nat :=
  let parent := nth i p 0 in
  let newparent := nth parent p 0 in
  match walk fuel p synthetic_vertex parent newparent with
  | None => Diverged
  | Some parent' =>
      match pid2ind_find parent' pid2ind with
      | Some ind => Returned ind
      | None =>
          match pid2ind_find i pid2ind with
          | Some ind => Returned ind
          | None => Thrown OutOfRange
          end
      end
  end.

(** Lines 242-258: the loop over [i < nv], in order. *)
Fixpoint resolve_all (fuel : nat) (p : list Vertex) (synthetic_vertex : Vertex)
         (pid2ind : pid2ind_t) (todo : list nat) : outcome (list nat) :=
  match todo with
  | [] => Returned []
  | i :: rest =>
      match resolve fuel p synthetic_vertex pid2ind i with
      | Returned a =>
          match resolve_all fuel p synthetic_vertex pid2ind rest with
          | Returned l => Returned (a :: l)
          | Thrown e => Thrown e
          | Diverged => Diverged
          end
      | Thrown e => Thrown e
      | Diverged => Diverged
      end
  end.

(** The graph Dijkstra is run on (lines 218-226): the synthetic vertex
    wired to every member of the container. *)
Definition gc_query (x : Graph) (container : list Vertex) : Graph :=
  let (x1, synthetic_vertex) := ScopedSyntheticVertex.acquire x in
  wire_from synthetic_vertex container x1.

(** [get_costs(x, container)]: the graph after the call and the pair
    (costs, assignments).  When the walk of some vertex never ends the
    call has no exit: the graph component is then the one inside the
    scope. *)
Definition get_costs (fuel : nat) (x : Graph) (container : list Vertex)
  : Graph * outcome (list edge_cost * list nat) :=
  let nv := num_vertices x in
  let synthetic_vertex := num_vertices x in
  let x2 := gc_query x container in
  let (costs, p) := dijkstra_shortest_paths x2 synthetic_vertex in
  let pid2ind := pid2ind_fill 0 container [] in
  match resolve_all fuel p synthetic_vertex pid2ind (seq 0 nv) with
  | Returned assignments =>
      (ScopedSyntheticVertex.release synthetic_vertex x2,
       Returned (firstn nv costs, assignments))
  | Thrown e => (ScopedSyntheticVertex.release synthetic_vertex x2, Thrown e)
  | Diverged => (x2, Diverged)
  end.

(** *** thorup_sample_mincost *)

Definition solution := (list Vertex * edge_cost)%type.

(** Lines 284-287: [if(next.second < bestsol.second) std::swap(next, bestsol)]. *)
Definition keep_best (bestsol next : solution) : solution :=
  if (snd next <? snd bestsol)%Z then next else bestsol.

(** Lines 281-288: the trials after the first. *)
Fixpoint tsm_loop (count : nat) (x : Graph) (rng : RNG) (nperround maxnumrounds : nat)
         (bestsol : solution) : Graph * RNG * outcome solution :=
  match count with
  | 0 => (x, rng, Returned bestsol)
  | S c =>
      match thorup_d x rng nperround maxnumrounds with
      | (x', rng', Returned next) =>
          tsm_loop c x' rng' nperround maxnumrounds (keep_best bestsol next)
      | (x', rng', Thrown e) => (x', rng', Thrown e)
      | (x', rng', Diverged) => (x', rng', Diverged)
      end
  end.

(** [thorup_sample_mincost(x, k, seed, num_iter)]: the graph after the
    call and the pair returned by line 292. *)
Definition thorup_sample_mincost (fuel : nat) (x : Graph) (k : nat) (seed : N) (num_iter : nat)
  : Graph * outcome (list Vertex * list nat) :=
  let rng := rng_seed seed in
  let n := num_vertices x in
  let nperround := samples_per_round k n in
  let maxnumrounds := max_rounds n in
  match thorup_d x rng nperround maxnumrounds with
  | (x1, rng1, Returned first) =>
      match tsm_loop (num_iter - 1) x1 rng1 nperround maxnumrounds first with
      | (x2, _, Returned bestsol) =>
          match get_costs fuel x2 (fst bestsol) with
          | (x3, Returned (_, assignments)) => (x3, Returned (fst bestsol, assignments))
          | (x3, Thrown e) => (x3, Thrown e)
          | (x3, Diverged) => (x3, Diverged)
          end
      | (x2, _, Thrown e) => (x2, Thrown e)
      | (x2, _, Diverged) => (x2, Diverged)
      end
  | (x1, _, Thrown e) => (x1, Thrown e)
  | (x1, _, Diverged) => (x1, Diverged)
  end.

End Sampling.

(** ** Reference capabilities

    Executable stand-ins for the external routines, used to run the
    embedding on concrete graphs. *)

Module Reference.

(** A 64-bit linear congruential generator in the place of [wy::WyRand]. *)
Definition RNG := N.
Definition rng_seed (seed : N) : RNG := seed.
Definition rng_next (s : RNG) : N * RNG :=
  let s' := ((s * 6364136223846793005 + 1442695040888963407) mod 2 ^ 64)%N in
  ((s' / 2 ^ 33)%N, s').

(** The distance boost leaves on a vertex it never reaches
    ([numeric_limits<double>::max()], below [2^1024]). *)
Definition dist_inf : Z := 2 ^ 1024.

Fixpoint set_at {A : Type} (i : nat) (x : A) (l : list A) : list A :=
  match l, i with
  | [], _ => []
  | _ :: t, 0 => x :: t
  | h :: t, S j => h :: set_at j x t
  end.

Definition tables := (list edge_cost * list Vertex)%type.

(** Relaxation of [u -> v]: a strict improvement, as in boost. *)
Definition relax (u v : Vertex) (w : edge_cost) (dp : tables) : tables :=
  let du := nth u (fst dp) dist_inf in
  if (du =? dist_inf)%Z then dp
  else if (du + w <? nth v (fst dp) dist_inf)%Z
       then (set_at v (du + w)%Z (fst dp), set_at v u (snd dp))
       else dp.

Definition relax_edge (dp : tables) (e : Edge) : tables :=
  relax (e_dst e) (e_src e) (e_weight e)
        (relax (e_src e) (e_dst e) (e_weight e) dp).

Fixpoint same_costs (a b : list edge_cost) : bool :=
  match a, b with
  | [], [] => true
  | x :: a', y :: b' => (x =? y)%Z && same_costs a' b'
  | _, _ => false
  end.

(** Rounds of relaxation over all edges, until nothing changes or the
    bound is reached. *)
Fixpoint relax_rounds (n : nat) (es : list Edge) (dp : tables) : tables :=
  match n with
  | 0 => dp
  | S n' =>
      let dp' := fold_left relax_edge es dp in
      if same_costs (fst dp) (fst dp') then dp' else relax_rounds n' es dp'
  end.

(** Single-source shortest paths: every vertex starts at [dist_inf] with
    itself as predecessor, the source at [0]. *)
Definition dijkstra_shortest_paths (g : Graph) (source : Vertex) : tables :=
  let n := num_vertices g in
  relax_rounds n (edges g)
               (set_at source 0%Z (repeat dist_inf n), seq 0 n).

Definition mark_edge (seen : list bool) (e : Edge) : list bool :=
  if nth (e_src e) seen false || nth (e_dst e) seen false
  then set_at (e_src e) true (set_at (e_dst e) true seen)
  else seen.

Fixpoint same_marks (a b : list bool) : bool :=
  match a, b with
  | [], [] => true
  | x :: a', y :: b' => Bool.eqb x y && same_marks a' b'
  | _, _ => false
  end.

Fixpoint mark_rounds (n : nat) (es : list Edge) (seen : list bool) : list bool :=
  match n with
  | 0 => seen
  | S n' =>
      let seen' := fold_left mark_edge es seen in
      if same_marks seen seen' then seen' else mark_rounds n' es seen'
  end.

(** One connected component: everything is reached from vertex [0]. *)
Definition assert_connected (g : Graph) : bool :=
  let n := num_vertices g in
  (0 <? n) && forallb (fun b => b)
                      (mark_rounds n (edges g) (set_at 0 true (repeat false n))).

Definition uninitialised (n : nat) : list edge_cost := repeat 0%Z n.

(** The path graph [0 - 1 - ... - (n-1)] with the given weight. *)
Definition path_graph (n : nat) (w : edge_cost) : Graph :=
  mkGraph n (map (fun i => (i, S i, w)) (seq 0 (pred n))).

(** The star with centre [0] and leaves [1 .. n-1]. *)
Definition star_graph (n : nat) (w : edge_cost) : Graph :=
  mkGraph n (map (fun i => (0, S i, w)) (seq 0 (pred n))).

End Reference.

(** The routines run on the reference capabilities. *)
Module Run.
Import Reference.

Definition sample_from_graph :=
  sample_from_graph rng_seed rng_next dijkstra_shortest_paths.
Definition thorup_d :=
  thorup_d rng_next dijkstra_shortest_paths assert_connected uninitialised.
Definition get_costs := get_costs dijkstra_shortest_paths.
Definition thorup_sample_mincost :=
  thorup_sample_mincost rng_seed rng_next dijkstra_shortest_paths
                        assert_connected uninitialised.
End Run.

(** * Vocabulary of the properties *)

(** [scoped x g]: [g] is [x] with the synthetic vertex added and some
    edges, all incident to it, appended. *)
Definition scoped (x g : Graph) : Prop :=
  num_vertices g = S (num_vertices x) /\
  exists extra, edges g = edges x ++ extra /\
                Forall (fun e => incident (num_vertices x) e = true) extra.

Definition same_counts (x x' : Graph) : Prop :=
  num_vertices x' = num_vertices x /\ num_edges x' = num_edges x.

Section Vocabulary.

Variable RNG : Type.
Variable rng_seed : N -> RNG.
Variable rng_next : RNG -> N * RNG.
Variable dijkstra_shortest_paths : Graph -> Vertex -> list edge_cost * list Vertex.
Variable assert_connected : Graph -> bool.
Variable uninitialised : nat -> list edge_cost.

(** The draws of one round, as the text of the algorithm has them: [e]
    picks [R[rng() % |R|]] from the unchanged pool. *)
Fixpoint draws_with_replacement (e : nat) (R : list Vertex) (rng : RNG) : list Vertex :=
  match e with
  | 0 => []
  | S e' => let (j, rng') := draw rng_next rng (length R) in
            nth j R 0 :: draws_with_replacement e' R rng'
  end.

(** Between rounds the graph is the input with the bare synthetic vertex. *)
Definition sfg_inv (x : Graph) (st : sfg_state RNG) : Prop :=
  sfg_graph st = fst (ScopedSyntheticVertex.acquire x) /\
  Forall (fun v => v < num_vertices x) (sfg_R st) /\
  Forall (fun v => v < num_vertices x) (sfg_F st).

(** What every round keeps: the graph is the input plus the synthetic
    vertex and one zero-weight edge per member of [F], none removed;
    no vertex is in [F] twice or in both [F] and [R]. *)
Definition td_inv (x : Graph) (st : td_state RNG) : Prop :=
  num_vertices (td_graph st) = S (num_vertices x) /\
  edges (td_graph st)
    = edges x ++ map (fun v => (v, num_vertices x, 0%Z)) (td_F st) /\
  NoDup (td_F st ++ td_R st) /\
  Forall (fun v => v < num_vertices x) (td_F st ++ td_R st).

(** The distance vector is the one Dijkstra computed on the current graph. *)
Definition td_searched (synth : Vertex) (st : td_state RNG) : Prop :=
  td_distances st = fst (dijkstra_shortest_paths (td_graph st) synth).

Definition with_distances (d : list edge_cost) (st : td_state RNG) : td_state RNG :=
  mkTd (td_graph st) (td_R st) (td_F st) d (td_rng st).

(** The selector as the design words it: run the hierarchical sampler
    [count] times on one generator that is handed from each trial to the
    next, collecting the (SampleSet, CostValue) pairs in order. *)
Fixpoint run_trials (count : nat) (x : Graph) (rng : RNG) (nperround maxnumrounds : nat)
  : Graph * RNG * outcome (list solution) :=
  match count with
  | 0 => (x, rng, Returned [])
  | S c =>
      match thorup_d rng_next dijkstra_shortest_paths assert_connected uninitialised
                     x rng nperround maxnumrounds with
      | (x', rng', Returned s) =>
          match run_trials c x' rng' nperround maxnumrounds with
          | (x'', rng'', Returned l) => (x'', rng'', Returned (s :: l))
          | failed => failed
          end
      | (x', rng', Thrown e) => (x', rng', Thrown e)
      | (x', rng', Diverged) => (x', rng', Diverged)
      end
  end.

(** The pair with the lowest cost, the earliest one among equals. *)
Definition lowest_cost (first : solution) (rest : list solution) : solution :=
  fold_left keep_best rest first.

(** Run the trials, keep the cheapest, call the assigner once on it and
    return its sample with the assignment. *)
Definition best_of_trials (fuel : nat) (x : Graph) (k : nat) (seed : N) (numTrials : nat)
  : Graph * outcome (list Vertex * list nat) :=
  let n := num_vertices x in
  match run_trials (Nat.max 1 numTrials) x (rng_seed seed)
                   (samples_per_round k n) (max_rounds n) with
  | (x1, _, Returned []) => (x1, Returned ([], []))
  | (x1, _, Returned (s :: l)) =>
      let winner := fst (lowest_cost s l) in
      match get_costs dijkstra_shortest_paths fuel x1 winner with
      | (x2, Returned (_, assignments)) => (x2, Returned (winner, assignments))
      | (x2, Thrown e) => (x2, Thrown e)
      | (x2, Diverged) => (x2, Diverged)
      end
  | (x1, _, Thrown e) => (x1, Thrown e)
  | (x1, _, Diverged) => (x1, Diverged)
  end.

End Vocabulary.

(** The graphs handed to Dijkstra by the successive rounds of
    [sample_from_graph], in order. *)
Fixpoint sfg_queries (RNG : Type) (rng_next : RNG -> N * RNG)
         (dijkstra_shortest_paths : Graph -> Vertex -> list edge_cost * list Vertex)
         (iterations samples_per_round : nat) (synthetic_vertex : Vertex)
         (st : sfg_state RNG) : list Graph :=
  match iterations with
  | 0 => []
  | S it =>
      match sfg_R st with
      | [] => []
      | _ :: _ =>
          let st' := sfg_round rng_next dijkstra_shortest_paths
                               samples_per_round synthetic_vertex st in
          sfg_query synthetic_vertex (sfg_F st') (sfg_graph st)
          :: sfg_queries rng_next dijkstra_shortest_paths it samples_per_round
                         synthetic_vertex st'
      end
  end.

(** The cost vector of the winning sample, which the call computes and
    then discards. *)
Definition winning_costs (fuel : nat) (x : Graph) (k : nat) (seed : N) (num_iter : nat)
  : option (list edge_cost) :=
  match Run.thorup_sample_mincost fuel x k seed num_iter with
  | (_, Returned (F, _)) =>
      match Run.get_costs fuel x F with
      | (_, Returned (costs, _)) => Some costs
      | _ => None
      end
  | _ => None
  end.

Definition is_returned {A} (o : outcome A) : bool :=
  match o with Returned _ => true | _ => false end.

(** The undirected edge [e] joins [u] and [v]. *)
Definition joins (e : Edge) (u v : Vertex) : Prop :=
  (e_src e = u /\ e_dst e = v) \/ (e_src e = v /\ e_dst e = u).

Definition joinsb (e : Edge) (u v : Vertex) : bool :=
  ((e_src e =? u) && (e_dst e =? v)) || ((e_src e =? v) && (e_dst e =? u)).

(** [path_weight g u v w]: some path of [g] leads from [u] to [v] with
    total weight [w]. *)
Inductive path_weight (g : Graph) : Vertex -> Vertex -> edge_cost -> Prop :=
| path_here u : path_weight g u u 0%Z
| path_step u v t e w :
    path_weight g u v w -> In e (edges g) -> joins e v t ->
    path_weight g u t (w + e_weight e)%Z.

(** [d] is the shortest-path distance between [u] and [v]. *)
Definition is_distance (g : Graph) (u v : Vertex) (d : edge_cost) : Prop :=
  path_weight g u v d /\ forall w, path_weight g u v w -> (d <= w)%Z.

(** The check of a shortest-path result [(d, p)] for the source [s] of
    [q]: what boost's Dijkstra leaves behind on a graph all of whose
    vertices it reaches. *)
Definition relaxedb (d : list edge_cost) (e : Edge) : bool :=
  (nth (e_dst e) d 0 <=? nth (e_src e) d 0 + e_weight e)%Z
  && (nth (e_src e) d 0 <=? nth (e_dst e) d 0 + e_weight e)%Z.

Definition tree_edgeb (d : list edge_cost) (p : list Vertex) (v : Vertex) (e : Edge) : bool :=
  joinsb e (nth v p 0) v
  && (nth v d 0 =? nth (nth v p 0%nat) d 0 + e_weight e)%Z.

(** Following predecessors from [v] meets [s] within [fuel] steps. *)
Fixpoint climbsb (p : list Vertex) (s : Vertex) (fuel : nat) (v : Vertex) : bool :=
  (v =? s) ||
  match fuel with
  | 0 => false
  | S fuel' => climbsb p s fuel' (nth v p 0)
  end.

(** A zero-weight edge at the source makes the source the predecessor of
    its other end: the source is examined first and later relaxations
    must improve strictly. *)
Definition source_firstb (p : list Vertex) (s : Vertex) (e : Edge) : bool :=
  negb (e_weight e =? 0)%Z
  || ((negb (e_src e =? s) || (nth (e_dst e) p 0 =? s))
      && (negb (e_dst e =? s) || (nth (e_src e) p 0 =? s))).

Definition sssp_check (q : Graph) (s : Vertex) (d : list edge_cost) (p : list Vertex) : bool :=
  (length d =? num_vertices q) && (length p =? num_vertices q)
  && (nth s d 0 =? 0)%Z && (nth s p 0 =? s)
  && forallb (relaxedb d) (edges q)
  && forallb (fun v => (v =? s) || existsb (tree_edgeb d p v) (edges q)) (vertices q)
  && forallb (climbsb p s (num_vertices q)) (vertices q)
  && forallb (source_firstb p s) (edges q).

(** [climb p k v]: the [k]-th predecessor of [v]. *)
Fixpoint climb (p : list Vertex) (k : nat) (v : Vertex) : Vertex :=
  match k with
  | 0 => v
  | S k' => climb p k' (nth v p 0)
  end.

(** What the loop stores for a vertex: the index of a sample member at
    the root of a tree path of length [d[v]] to it. *)
Definition assigned (x : Graph) (container : list Vertex) (d : list edge_cost)
           (v : Vertex) (ind : nat) : Prop :=
  exists r, nth_error container ind = Some r
            /\ (In v container -> r = v)
            /\ path_weight x r v (nth v d 0%Z).

Ltac vlia := unfold Vertex, edge_cost in *; lia.

(** * The rest of the sampling code *)

(** ** flat_hash_set of vertices

    The members in the order of their first insertion; the order in which
    the container is iterated is the hash table's and is a parameter where
    it is used. *)

Definition hs_contains (v : Vertex) (s : list Vertex) : bool :=
  existsb (Nat.eqb v) s.

Definition hs_insert (s : list Vertex) (v : Vertex) : list Vertex :=
  if hs_contains v s then s else s ++ [v].

(** [samples.insert(first, last)]. *)
Definition hs_insert_range (l s : list Vertex) : list Vertex :=
  fold_left hs_insert l s.

(** What the routines of namespace [tnk] throw: [throw 1] and
    [std::runtime_error("Not implemented")]. *)
Inductive tnk_error : Type :=
| ThrownInt (value : Z)
| NotImplemented.

Inductive tnk_outcome (A : Type) : Type :=
| Finished (a : A)
| Raised (e : tnk_error)
| Unending.      (* the loop is still running when the fuel is spent *)

Arguments Finished {A} a.
Arguments Raised {A} e.
Arguments Unending {A}.

Definition is_finished {A} (o : tnk_outcome A) : bool :=
  match o with Finished _ => true | _ => false end.

(** [std::ceil(3 * logn)] of [thorup_sample], read over the reals: the
    least [m] with [n^3 <= 2^m]. *)
Definition iterations_per_round (n : nat) : nat :=
  Z.to_nat (Z.log2_up (Z.of_nat n ^ 3)).

(** [parallel_goldman_1median(p, s, x)]: reserves room for its threads and
    throws. *)
Definition parallel_goldman_1median (p s : list Vertex) (x : Graph)
  : tnk_outcome (list Vertex) :=
  Raised NotImplemented.

Section MoreSampling.

Variable RNG : Type.
Variable rng_seed : N -> RNG.
Variable rng_next : RNG -> N * RNG.
Variable dijkstra_shortest_paths : Graph -> Vertex -> list edge_cost * list Vertex.
Variable assert_connected : Graph -> bool.

(** [std::mt19937_64]: its state and one call of [mt()]. *)
Variable MT : Type.
Variable mt_seed : N -> MT.
Variable mt_next : MT -> N * MT.

(** The order in which a [flat_hash_set] with the given members is
    iterated. *)
Variable hash_order : list Vertex -> list Vertex.

(** [std::ceil(21. * k * logn / eps)] with [eps = 1 / sqrt(logn)], and
    [std::ceil(std::pow(logn, 1.5))]: irrational in general, taken as
    functions of [k] and [n]. *)
Variable ts_samples_per_round : nat -> nat -> nat.
Variable ts_rounds : nat -> nat.

(** [numeric_limits<edge_cost>::max()]. *)
Variable edge_cost_max : edge_cost.

(** *** thorup_sample *)

(** Lines 51-57: one [sample_from_graph] per round, each seeded by the
    next output of [mt], its buffer merged into the set and cleared; the
    loop stops early once the set holds [max_sampled] members. *)
Fixpoint ts_loop (nr : nat) (x : Graph) (mt : MT)
         (samples_per_round iterations max_sampled : nat) (samples : list Vertex)
  : Graph * MT * list Vertex :=
  match nr with
  | 0 => (x, mt, samples)
  | S nr' =>
      let (seed, mt') := mt_next mt in
      let (x', current_buffer) :=
        sample_from_graph rng_seed rng_next dijkstra_shortest_paths
                          x samples_per_round iterations [] seed in
      let samples' := hs_insert_range current_buffer samples in
      if max_sampled <=? length samples' then (x', mt', samples')
      else ts_loop nr' x' mt' samples_per_round iterations max_sampled samples'
  end.

(** [thorup_sample(x, k, seed, max_sampled)]: the graph after the call
    and the vector returned. *)
Definition thorup_sample (x : Graph) (k : nat) (seed : N) (max_sampled : nat)
  : Graph * outcome (list Vertex) :=
  let max_sampled := if max_sampled =? 0 then num_vertices x else max_sampled in
  if negb (assert_connected x) then (x, Thrown InvalidInput)
  else
    let n := num_vertices x in
    match ts_loop (ts_rounds n) x (mt_seed seed) (ts_samples_per_round k n)
                  (iterations_per_round n) max_sampled [] with
    | (x', _, samples) =>
        let current_buffer := hash_order samples in
        (x', Returned (if max_sampled <? length samples
                       then firstn max_sampled current_buffer
                       else current_buffer))
    end.

(** *** random_sample *)

(** Lines 330-334: [while(ret.size() < n)], drawing [v[gen() % v.size()]]
    and keeping it when [std::find] does not find it in [ret]. *)
Fixpoint rs_loop (fuel : nat) (v : list Vertex) (n : nat) (gen : RNG)
         (ret : list Vertex) : option (list Vertex) :=
  if length ret <? n then
    match fuel with
    | 0 => None
    | S fuel' =>
        let (j, gen') := draw rng_next gen (length v) in
        let item := nth j v 0 in
        if hs_contains item ret then rs_loop fuel' v n gen' ret
        else rs_loop fuel' v n gen' (ret ++ [item])
    end
  else Some ret.

(** [random_sample(v, n, seed)]. *)
Definition random_sample (fuel : nat) (v : list Vertex) (n : nat) (seed : N)
  : tnk_outcome (list Vertex) :=
  if length v <=? n then Raised (ThrownInt 1)
  else match rs_loop fuel v n (rng_seed seed) [] with
       | Some ret => Finished ret
       | None => Unending
       end.

(** *** idnc *)

(** [idnc(x, k, seed)]: the graph after the call and how the call ends.
    The sample is drawn before the scope opens; inside it the synthetic
    vertex is wired to the sample, Dijkstra runs, and the first turn of
    the [for(;;)] calls [parallel_goldman_1median].  Were that call to
    return, the loop would leave when [last_cost <= current_cost] and
    spin otherwise, neither cost changing inside it. *)
Definition idnc (fuel : nat) (x : Graph) (k : nat) (seed : N)
  : Graph * tnk_outcome unit :=
  let (s0, _) := mt_next (mt_seed seed) in
  let R := vertices x in
  match random_sample fuel R k s0 with
  | Raised e => (x, Raised e)
  | Unending => (x, Unending)
  | Finished sp =>
      let (x1, synthetic_vertex) := ScopedSyntheticVertex.acquire x in
      let current_cost := edge_cost_max in
      let x2 := clear_vertex synthetic_vertex x1 in
      let x3 := wire_from synthetic_vertex sp x2 in
      let (distances, p) := dijkstra_shortest_paths x3 synthetic_vertex in
      let last_cost := sum_costs distances in
      match parallel_goldman_1median p sp x3 with
      | Raised e => (ScopedSyntheticVertex.release synthetic_vertex x3, Raised e)
      | Unending => (x3, Unending)
      | Finished _ =>
          if (last_cost <=? current_cost)%Z
          then (ScopedSyntheticVertex.release synthetic_vertex x3, Finished tt)
          else (x3, Unending)
      end
  end.

End MoreSampling.

(** The remaining routines on the reference capabilities; [mt19937_64]
    is stood in for by the same generator, and the hash set is iterated
    in insertion order. *)
Module RunMore.
Import Reference.

Definition thorup_sample :=
  thorup_sample rng_seed rng_next dijkstra_shortest_paths assert_connected
                rng_seed rng_next (fun s => s)
                (fun k n => 21 * k * Nat.log2_up n * Nat.log2_up n)
                (fun n => Nat.log2_up n * Nat.log2_up n).
Definition random_sample := random_sample rng_seed rng_next.
Definition idnc :=
  idnc rng_seed rng_next dijkstra_shortest_paths rng_seed rng_next dist_inf.
End RunMore.

(** * The road-length exporter

    The handler that collects the highway ways of a map file and the
    renumbering that writes them out as a shortest-path problem file.
    Reading the file, the locations of the nodes and the haversine
    distance belong to the map library: locations and distances are
    parameters. *)

Module RoadLength.

(** [osmium::object_id_type]. *)
Definition id_int_t := Z.

(** [std::unordered_set<id_int_t>]: the members in the order of their
    first insertion. *)
Definition ids_contains (i : id_int_t) (s : list id_int_t) : bool :=
  existsb (Z.eqb i) s.

Definition ids_insert (s : list id_int_t) (i : id_int_t) : list id_int_t :=
  if ids_contains i s then s else s ++ [i].

Record NodeRef (Location : Type) := mkNodeRef {
  ref : id_int_t;
  location : Location
}.

(** A way: whether it carries a [highway] tag, and its nodes. *)
Record Way (Location : Type) := mkWay {
  highway : bool;
  nodes : list (NodeRef Location)
}.

Record EdgeD (Dist : Type) := mkEdgeD {
  lhs_ : id_int_t;
  rhs_ : id_int_t;
  dist_ : Dist
}.

Record RoadLengthHandler (Dist : Type) := mkHandler {
  length : Dist;
  node_ids_ : list id_int_t;
  edges_ : list (EdgeD Dist)
}.

(** The file written by [main]: the counts of the [p sp] line, the
    [c old->new] lines and the [a lhs rhs dist] lines. *)
Record Dimacs (Dist : Type) := mkDimacs {
  problem_nodes : nat;
  problem_arcs : nat;
  renumbering : list (id_int_t * id_int_t);
  arcs : list (id_int_t * id_int_t * Dist)
}.

Section Handler.

Variable Location : Type.
Variable Dist : Type.
Variable dist_zero : Dist.
Variable dist_add : Dist -> Dist -> Dist.

(** [haversine::distance] of two locations, and of a node list. *)
Variable haversine : Location -> Location -> Dist.
Variable haversine_nodes : list (NodeRef Location) -> Dist.

(** The order in which the [unordered_set] is iterated. *)
Variable iteration_order : list id_int_t -> list id_int_t.

(** Lines 72-79: [for(i = 0, e = nodes.size() - 1; i < e; ++i)]. *)
Fixpoint way_segments (ns : list (NodeRef Location)) (ids : list id_int_t)
         (es : list (EdgeD Dist)) : list id_int_t * list (EdgeD Dist) :=
  match ns with
  | [] => (ids, es)
  | a :: rest =>
      match rest with
      | [] => (ids, es)
      | b :: _ =>
          way_segments rest (ids_insert ids (ref a))
                       (es ++ [mkEdgeD (ref a) (ref b)
                                       (haversine (location a) (location b))])
      end
  end.

(** [RoadLengthHandler::way].  [nodes[nodes.size() - 1]] has no meaning
    on an empty node list: [None]. *)
Definition way (h : RoadLengthHandler Dist) (w : Way Location)
  : option (RoadLengthHandler Dist) :=
  if negb (highway w) then Some h
  else
    match nodes w with
    | [] => None
    | _ :: _ =>
        let ids := ids_insert (node_ids_ h) (last (map (@ref Location) (nodes w)) 0%Z) in
        let (ids', es') := way_segments (nodes w) ids (edges_ h) in
        Some (mkHandler (dist_add (length h) (haversine_nodes (nodes w))) ids' es')
    end.

(** [osmium::apply] on the ways of the file, in order. *)
Fixpoint apply_ways (ws : list (Way Location)) (h : RoadLengthHandler Dist)
  : option (RoadLengthHandler Dist) :=
  match ws with
  | [] => Some h
  | w :: rest =>
      match way h w with
      | Some h' => apply_ways rest h'
      | None => None
      end
  end.

Definition new_handler : RoadLengthHandler Dist := mkHandler dist_zero [] [].

(** [std::unordered_map<id_int_t, id_int_t>], newest binding first;
    [reassigner[k]] on a key that is not bound yields the default [0]. *)
Fixpoint reassigner_at (m : list (id_int_t * id_int_t)) (k : id_int_t) : id_int_t :=
  match m with
  | [] => 0%Z
  | (k', v) :: rest => if (k' =? k)%Z then v else reassigner_at rest k
  end.

(** Lines 122-126: the ids in iteration order receive [0, 1, 2, ...]. *)
Fixpoint reassign (ids : list id_int_t) (assigned_id : id_int_t)
         (m : list (id_int_t * id_int_t)) (lines : list (id_int_t * id_int_t))
  : list (id_int_t * id_int_t) * list (id_int_t * id_int_t) :=
  match ids with
  | [] => (m, lines)
  | i :: rest =>
      reassign rest (assigned_id + 1)%Z ((i, assigned_id) :: m)
               (lines ++ [(i, assigned_id)])
  end.

(** Lines 113-130 of [main]. *)
Definition write_dimacs (h : RoadLengthHandler Dist) : Dimacs Dist :=
  let (reassigner, lines) := reassign (iteration_order (node_ids_ h)) 0%Z [] [] in
  mkDimacs (List.length (node_ids_ h)) (List.length (edges_ h)) lines
           (map (fun e => (reassigner_at reassigner (lhs_ e),
                           reassigner_at reassigner (rhs_ e), dist_ e))
                (edges_ h)).

End Handler.

(** The node ids of the ways that carry a [highway] tag, and the number
    of their segments. *)
Definition highway_nodes (Location : Type) (ws : list (Way Location))
  : list id_int_t :=
  flat_map (fun w => if highway w then map (@ref Location) (nodes w) else []) ws.

Definition highway_segments (Location : Type) (ws : list (Way Location)) : nat :=
  list_sum (map (fun w => if highway w then List.length (nodes w) - 1 else 0) ws).

(** Every edge joins two collected nodes. *)
Definition edges_closed (Dist : Type) (h : RoadLengthHandler Dist) : Prop :=
  forall e, In e (edges_ h) ->
    In (lhs_ e) (node_ids_ h) /\ In (rhs_ e) (node_ids_ h).

(** Three ways on a line of nodes; the middle one is no highway. *)
Module Example.

Definition ways : list (Way unit) :=
  [ mkWay true [mkNodeRef 10%Z tt; mkNodeRef 20%Z tt; mkNodeRef 30%Z tt];
    mkWay false [mkNodeRef 40%Z tt; mkNodeRef 50%Z tt];
    mkWay true [mkNodeRef 30%Z tt; mkNodeRef 60%Z tt] ].

Definition collect : option (RoadLengthHandler Z) :=
  apply_ways Z.add (fun _ _ => 1%Z)
             (fun ns => Z.of_nat (List.length ns) - 1)%Z ways (new_handler 0%Z).

(** What the handler holds after them. *)
Definition collected : RoadLengthHandler Z :=
  mkHandler 3%Z [30; 10; 20; 60]%Z
            [mkEdgeD 10%Z 20%Z 1%Z; mkEdgeD 20%Z 30%Z 1%Z; mkEdgeD 30%Z 60%Z 1%Z].

End Example.

End RoadLength.

(** * Properties *)

(** ** The scope of the synthetic vertex *)

Lemma graph_eq (g h : Graph) :
  num_vertices g = num_vertices h -> edges g = edges h -> g = h.
Proof. destruct g, h; simpl; intros; subst; reflexivity. Qed.

Lemma filter_all {A} (f : A -> bool) (l : list A) :
  Forall (fun a => f a = true) l -> filter f l = l.
Proof.
  induction 1 as [|a l Ha _ IH]; simpl; [reflexivity|].
  rewrite Ha, IH; reflexivity.
Qed.

Lemma filter_none {A} (f : A -> bool) (l : list A) :
  Forall (fun a => f a = false) l -> filter f l = [].
Proof.
  induction 1 as [|a l Ha _ IH]; simpl; [reflexivity|].
  rewrite Ha; exact IH.
Qed.

Lemma in_range_not_incident n e :
  edge_in_range n e -> incident n e = false.
Proof.
  intros [Hs Hd]; unfold incident.
  apply orb_false_iff; split; apply Nat.eqb_neq; lia.
Qed.

Lemma in_range_shift n e :
  edge_in_range n e ->
  (shift_down n (e_src e), shift_down n (e_dst e), e_weight e) = e.
Proof.
  intros [Hs Hd]; unfold shift_down.
  destruct (Nat.ltb_spec n (e_src e)); [lia|].
  destruct (Nat.ltb_spec n (e_dst e)); [lia|].
  destruct e as [[u v] w]; reflexivity.
Qed.

Lemma scoped_acquire x : scoped x (fst (ScopedSyntheticVertex.acquire x)).
Proof.
  split; [reflexivity|]. exists []; simpl; rewrite app_nil_r; auto.
Qed.

Lemma clear_scoped x g :
  wf_graph x -> scoped x g ->
  clear_vertex (num_vertices x) g = fst (ScopedSyntheticVertex.acquire x).
Proof.
  intros Hwf [Hn (extra & He & Hinc)].
  apply graph_eq; simpl; [exact Hn|].
  rewrite He, filter_app, filter_all, filter_none, app_nil_r; [reflexivity| |].
  - eapply Forall_impl; [|exact Hinc]; intros e H; simpl in H; rewrite H; reflexivity.
  - eapply Forall_impl; [|exact Hwf]; intros e H; simpl.
    rewrite (in_range_not_incident H); reflexivity.
Qed.

Lemma release_scoped x g :
  wf_graph x -> scoped x g ->
  ScopedSyntheticVertex.release (num_vertices x) g = x.
Proof.
  intros Hwf Hs; unfold ScopedSyntheticVertex.release.
  rewrite (clear_scoped Hwf Hs); apply graph_eq; simpl; [reflexivity|].
  induction Hwf as [|e l He _ IH]; simpl; [reflexivity|].
  rewrite (in_range_shift He), IH; reflexivity.
Qed.

Lemma scoped_add_edge x g u v w :
  scoped x g -> u <= num_vertices x -> v <= num_vertices x ->
  incident (num_vertices x) (u, v, w) = true ->
  scoped x (add_edge u v w g).
Proof.
  intros [Hn (extra & He & Hinc)] Hu Hv Hi; split; simpl.
  - rewrite Hn; lia.
  - exists (extra ++ [(u, v, w)]); split.
    + rewrite He, app_assoc; reflexivity.
    + apply Forall_app; split; [exact Hinc|]; constructor; auto.
Qed.

Lemma scoped_wire_from x g F :
  scoped x g -> Forall (fun v => v < num_vertices x) F ->
  scoped x (wire_from (num_vertices x) F g).
Proof.
  intros Hs HF; revert g Hs; unfold wire_from.
  induction HF as [|v F Hv _ IH]; intros g Hs; simpl; [exact Hs|].
  apply IH, scoped_add_edge; auto; try lia.
  unfold incident; simpl; rewrite Nat.eqb_refl; reflexivity.
Qed.

Lemma scoped_wire_to x g F :
  scoped x g -> Forall (fun v => v < num_vertices x) F ->
  scoped x (wire_to (num_vertices x) F g).
Proof.
  intros Hs HF; revert g Hs; unfold wire_to.
  induction HF as [|v F Hv _ IH]; intros g Hs; simpl; [exact Hs|].
  apply IH, scoped_add_edge; auto; try lia.
  unfold incident; simpl; rewrite Nat.eqb_refl, orb_true_r; reflexivity.
Qed.

(** ** Lists: pruning and removal by swap *)

Lemma filter_length_lt {A} (f : A -> bool) (l : list A) (a : A) :
  In a l -> f a = false -> length (filter f l) < length l.
Proof.
  induction l as [|h t IH]; simpl; [tauto|].
  intros [->|Hin] Hf.
  - rewrite Hf. pose proof (filter_length_le f t). lia.
  - specialize (IH Hin Hf). destruct (f h); simpl; lia.
Qed.

Lemma prune_length_le d minv R : length (prune d minv R) <= length R.
Proof. apply filter_length_le. Qed.

Lemma prune_pivot d R j :
  j < length R ->
  length (prune d (nth (nth j R 0) d 0%Z) R) < length R.
Proof.
  intros Hj; unfold prune.
  apply filter_length_lt with (a := nth j R 0).
  - apply nth_In; exact Hj.
  - rewrite Z.leb_refl; reflexivity.
Qed.

Lemma prune_incl d minv R v : In v (prune d minv R) -> In v R.
Proof. unfold prune; rewrite filter_In; tauto. Qed.

Lemma set_nth_length i x l : length (set_nth i x l) = length l.
Proof.
  revert i; induction l as [|h t IH]; intros [|i]; simpl; auto.
Qed.

Lemma removelast_length {A} (l : list A) : length (removelast l) = pred (length l).
Proof.
  induction l as [|h t IH]; [reflexivity|].
  destruct t as [|h' t']; [reflexivity|].
  change (removelast (h :: h' :: t')) with (h :: removelast (h' :: t')).
  change (length (h :: removelast (h' :: t'))) with (S (length (removelast (h' :: t')))).
  rewrite IH; reflexivity.
Qed.

Lemma swap_pop_length idx R : length (swap_pop idx R) = pred (length R).
Proof. unfold swap_pop; rewrite removelast_length, set_nth_length; reflexivity. Qed.

(** Removing [R[idx]] by swap and pop leaves the other members, each once. *)
Lemma swap_pop_perm idx R :
  idx < length R -> Permutation (nth idx R 0 :: swap_pop idx R) R.
Proof.
  unfold swap_pop; revert idx.
  induction R as [|h t IH]; intros idx Hidx; simpl in Hidx; [lia|].
  destruct t as [|h' t'].
  - destruct idx; [|simpl in Hidx; lia]. simpl. apply Permutation_refl.
  - change (last (h :: h' :: t') 0) with (last (h' :: t') 0).
    destruct idx as [|i].
    + change (set_nth 0 (last (h' :: t') 0) (h :: h' :: t'))
        with (last (h' :: t') 0 :: h' :: t').
      change (removelast (last (h' :: t') 0 :: h' :: t'))
        with (last (h' :: t') 0 :: removelast (h' :: t')).
      simpl nth. apply perm_skip.
      rewrite (app_removelast_last 0 (l := h' :: t')) at 3 by discriminate.
      apply Permutation_cons_append.
    + change (set_nth (S i) (last (h' :: t') 0) (h :: h' :: t'))
        with (h :: set_nth i (last (h' :: t') 0) (h' :: t')).
      assert (Hne : set_nth i (last (h' :: t') 0) (h' :: t') <> []).
      { intros E. apply (f_equal (@length _)) in E.
        rewrite set_nth_length in E. discriminate. }
      destruct (set_nth i (last (h' :: t') 0) (h' :: t')) as [|a b] eqn:E;
        [congruence|].
      change (removelast (h :: a :: b)) with (h :: removelast (a :: b)).
      change (nth (S i) (h :: h' :: t') 0) with (nth i (h' :: t') 0).
      eapply perm_trans; [apply perm_swap|]. apply perm_skip.
      rewrite <- E. apply IH. simpl in *; lia.
Qed.

Lemma sum_costs_from l a : fold_left Z.add l a = (a + sum_costs l)%Z.
Proof.
  unfold sum_costs; revert a; induction l as [|h t IH]; intros a; simpl; [lia|].
  rewrite IH, (IH h); lia.
Qed.

Lemma edges_wire_from s F g :
  edges (wire_from s F g) = edges g ++ map (fun v => (s, v, 0%Z)) F.
Proof.
  unfold wire_from; revert g; induction F as [|v F IH]; intros g; simpl.
  - rewrite app_nil_r; reflexivity.
  - rewrite IH; simpl; rewrite <- app_assoc; reflexivity.
Qed.

Lemma edges_wire_to s F g :
  edges (wire_to s F g) = edges g ++ map (fun v => (v, s, 0%Z)) F.
Proof.
  unfold wire_to; revert g; induction F as [|v F IH]; intros g; simpl.
  - rewrite app_nil_r; reflexivity.
  - rewrite IH; simpl; rewrite <- app_assoc; reflexivity.
Qed.

Lemma wire_to_app s F1 F2 g :
  wire_to s (F1 ++ F2) g = wire_to s F2 (wire_to s F1 g).
Proof. unfold wire_to; apply fold_left_app. Qed.

Lemma NoDup_app_sub (F R R' : list Vertex) :
  NoDup (F ++ R) -> NoDup R' -> (forall v, In v R' -> In v R) -> NoDup (F ++ R').
Proof.
  intros H HR' Hsub; induction F as [|h t IH]; simpl in *; [exact HR'|].
  inversion H as [|? ? Hnin Hnd]; subst. constructor; [|auto].
  rewrite in_app_iff in *. intros [Hin|Hin]; apply Hnin; auto.
Qed.

(** ** The rounds of sample_from_graph *)

Section SampleFromGraphFacts.

Variable RNG : Type.
Variable rng_seed : N -> RNG.
Variable rng_next : RNG -> N * RNG.
Variable dijkstra_shortest_paths : Graph -> Vertex -> list edge_cost * list Vertex.

Local Abbreviation draw_ := (draw rng_next).
Local Abbreviation draw_samples_ := (draw_samples rng_next).
Local Abbreviation sfg_round_ := (sfg_round rng_next dijkstra_shortest_paths).
Local Abbreviation sfg_loop_ := (sfg_loop rng_next dijkstra_shortest_paths).
Local Abbreviation draws_with_replacement_ := (draws_with_replacement rng_next).

Lemma draw_lt rng size : size <> 0 -> fst (draw_ rng size) < size.
Proof.
  intros Hs; unfold draw. destruct (rng_next rng) as [x r]; simpl.
  pose proof (N.mod_lt x (N.of_nat size)). lia.
Qed.

Lemma draws_with_replacement_length e R rng :
  length (draws_with_replacement_ e R rng) = e.
Proof.
  revert rng; induction e as [|e IH]; intros rng; simpl; [reflexivity|].
  destruct (draw_ rng (length R)); simpl; rewrite IH; reflexivity.
Qed.

Lemma draws_with_replacement_in e R rng :
  R <> [] -> Forall (fun v => In v R) (draws_with_replacement_ e R rng).
Proof.
  intros HR; revert rng; induction e as [|e IH]; intros rng; simpl; [constructor|].
  destruct (draw_ rng (length R)) as [j rng'] eqn:E. constructor; [|apply IH].
  apply nth_In. change j with (fst (j, rng')); rewrite <- E.
  apply draw_lt. destruct R; [congruence|discriminate].
Qed.

Lemma draw_samples_nonempty e R F rng :
  R <> [] ->
  fst (draw_samples_ e R F rng) = F ++ draws_with_replacement_ e R rng.
Proof.
  intros HR; revert F rng; induction e as [|e IH]; intros F rng; simpl.
  - rewrite app_nil_r; reflexivity.
  - destruct R as [|h t]; [congruence|].
    destruct (draw_ rng (length (h :: t))) as [j rng'].
    rewrite IH, <- app_assoc; reflexivity.
Qed.

Lemma draw_samples_prefix e R F rng :
  exists new, fst (draw_samples_ e R F rng) = F ++ new /\
              Forall (fun v => In v R) new.
Proof.
  destruct R as [|h t] eqn:ER.
  - exists []; destruct e; simpl; rewrite app_nil_r; auto.
  - rewrite <- ER. exists (draws_with_replacement_ e R rng); split.
    + apply draw_samples_nonempty; congruence.
    + apply draws_with_replacement_in; congruence.
Qed.

Lemma sfg_round_F s synth st :
  sfg_F (sfg_round_ s synth st)
  = fst (draw_samples_ s (sfg_R st) (sfg_F st) (sfg_rng st)).
Proof.
  unfold sfg_round.
  destruct (draw_samples_ s (sfg_R st) (sfg_F st) (sfg_rng st)) as [F' rng1].
  destruct (draw_ rng1 (length (sfg_R st))); reflexivity.
Qed.

Lemma sfg_round_R_lt s synth st :
  sfg_R st <> [] -> length (sfg_R (sfg_round_ s synth st)) < length (sfg_R st).
Proof.
  intros HR; unfold sfg_round.
  destruct (draw_samples_ s (sfg_R st) (sfg_F st) (sfg_rng st)) as [F' rng1].
  destruct (draw_ rng1 (length (sfg_R st))) as [j rng2] eqn:E; simpl.
  apply prune_pivot. change j with (fst (j, rng2)); rewrite <- E.
  apply draw_lt. destruct (sfg_R st); [congruence|discriminate].
Qed.

Lemma sfg_round_R_incl s synth st v :
  In v (sfg_R (sfg_round_ s synth st)) -> In v (sfg_R st).
Proof.
  unfold sfg_round.
  destruct (draw_samples_ s (sfg_R st) (sfg_F st) (sfg_rng st)) as [F' rng1].
  destruct (draw_ rng1 (length (sfg_R st))) as [j rng2]; simpl.
  apply prune_incl.
Qed.

Lemma sfg_round_graph s synth st :
  sfg_graph (sfg_round_ s synth st)
  = clear_vertex synth
      (sfg_query synth (sfg_F (sfg_round_ s synth st)) (sfg_graph st)).
Proof.
  rewrite sfg_round_F. unfold sfg_round.
  destruct (draw_samples_ s (sfg_R st) (sfg_F st) (sfg_rng st)) as [F' rng1].
  destruct (draw_ rng1 (length (sfg_R st))); reflexivity.
Qed.

Lemma sfg_loop_R_le it s synth st :
  length (sfg_R (sfg_loop_ it s synth st)) <= length (sfg_R st).
Proof.
  revert st; induction it as [|it IH]; intros st; simpl; [lia|].
  destruct (sfg_R st) as [|h t] eqn:ER; [rewrite ER; simpl; lia|].
  etransitivity; [apply IH|].
  pose proof (@sfg_round_R_lt s synth st) as H. rewrite ER in H.
  simpl in H. apply Nat.lt_le_incl, H. discriminate.
Qed.

Lemma sfg_loop_prefix it s synth st :
  exists new, sfg_F (sfg_loop_ it s synth st) = sfg_F st ++ new.
Proof.
  revert st; induction it as [|it IH]; intros st; simpl.
  - exists []; rewrite app_nil_r; reflexivity.
  - destruct (sfg_R st) as [|h t] eqn:ER.
    + exists []; rewrite app_nil_r; reflexivity.
    + destruct (IH (sfg_round_ s synth st)) as (new & Hnew).
      rewrite Hnew, sfg_round_F.
      destruct (draw_samples_prefix s (sfg_R st) (sfg_F st) (sfg_rng st))
        as (new0 & H0 & _).
      rewrite ER in H0. rewrite ER, H0. exists (new0 ++ new).
      rewrite app_assoc; reflexivity.
Qed.

Lemma sfg_round_inv x s st :
  wf_graph x -> sfg_inv x st -> sfg_inv x (sfg_round_ s (num_vertices x) st).
Proof.
  intros Hwf (Hg & HR & HF).
  assert (HF' : Forall (fun v => v < num_vertices x)
                       (sfg_F (sfg_round_ s (num_vertices x) st))).
  { rewrite sfg_round_F.
    destruct (draw_samples_prefix s (sfg_R st) (sfg_F st) (sfg_rng st))
      as (new & -> & Hin).
    apply Forall_app; split; [exact HF|].
    rewrite Forall_forall in *. auto. }
  split; [|split]; [| |exact HF'].
  - rewrite sfg_round_graph, Hg. apply clear_scoped; [exact Hwf|].
    apply scoped_wire_from; [apply scoped_acquire|exact HF'].
  - rewrite Forall_forall in *. intros v Hv. eauto using sfg_round_R_incl.
Qed.

Lemma sfg_loop_inv x it s st :
  wf_graph x -> sfg_inv x st -> sfg_inv x (sfg_loop_ it s (num_vertices x) st).
Proof.
  intros Hwf; revert st; induction it as [|it IH]; intros st Hinv; simpl; [exact Hinv|].
  destruct (sfg_R st); [exact Hinv|]. apply IH, sfg_round_inv; assumption.
Qed.

Lemma sample_from_graph_restores x s it container seed :
  wf_graph x -> Forall (fun v => v < num_vertices x) container ->
  fst (sample_from_graph rng_seed rng_next dijkstra_shortest_paths
                         x s it container seed) = x.
Proof.
  intros Hwf Hc; unfold sample_from_graph.
  cbn [ScopedSyntheticVertex.acquire add_vertex fst snd].
  match goal with |- context [sfg_loop_ it s ?v ?st0] =>
    destruct (@sfg_loop_inv x it s st0 Hwf) as (Hg & _ & _) end.
  { split; [reflexivity|split]; simpl; [|exact Hc].
    apply Forall_forall; intros v Hv; apply in_seq in Hv; lia. }
  rewrite Hg, (clear_scoped Hwf (scoped_acquire x)).
  apply release_scoped; [exact Hwf|apply scoped_acquire].
Qed.

End SampleFromGraphFacts.

(** ** The rounds of thorup_d *)

Section ThorupDFacts.

Variable RNG : Type.
Variable rng_next : RNG -> N * RNG.
Variable dijkstra_shortest_paths : Graph -> Vertex -> list edge_cost * list Vertex.

Local Abbreviation td_take_ := (td_take rng_next).
Local Abbreviation td_sample_ := (td_sample rng_next).
Local Abbreviation td_prune_ := (td_prune rng_next).
Local Abbreviation td_search_ := (td_search dijkstra_shortest_paths).
Local Abbreviation td_round_ := (td_round rng_next dijkstra_shortest_paths).
Local Abbreviation td_loop_ := (td_loop rng_next dijkstra_shortest_paths).
Local Abbreviation td_searched_ := (td_searched dijkstra_shortest_paths).

Lemma td_take_inv x j st :
  j <= length (td_R st) -> td_inv x st -> td_inv x (td_take_ j (num_vertices x) st).
Proof.
  revert st; induction j as [|j IH]; intros st Hj Hinv; simpl; [exact Hinv|].
  destruct (draw rng_next (td_rng st) (length (td_R st))) as [idx rng'] eqn:E.
  assert (Hidx : idx < length (td_R st)).
  { change idx with (fst (idx, rng')); rewrite <- E. apply draw_lt. lia. }
  destruct Hinv as (Hn & He & Hnd & Hr).
  pose proof (swap_pop_perm (td_R st) Hidx) as Hp.
  assert (Hperm : Permutation ((td_F st ++ [nth idx (td_R st) 0])
                                 ++ swap_pop idx (td_R st))
                              (td_F st ++ td_R st)).
  { rewrite <- app_assoc. apply Permutation_app_head. exact Hp. }
  assert (Hlt : nth idx (td_R st) 0 < num_vertices x).
  { rewrite Forall_forall in Hr. apply Hr, in_or_app; right.
    apply nth_In; exact Hidx. }
  apply IH; simpl.
  - rewrite swap_pop_length; lia.
  - split; [|split; [|split]]; simpl.
    + rewrite Hn; lia.
    + rewrite He, map_app, app_assoc; reflexivity.
    + eapply Permutation_NoDup; [apply Permutation_sym, Hperm|exact Hnd].
    + eapply Permutation_Forall; [apply Permutation_sym, Hperm|exact Hr].
Qed.

Lemma td_take_R_length j synth st :
  length (td_R (td_take_ j synth st)) = length (td_R st) - j.
Proof.
  revert st; induction j as [|j IH]; intros st; simpl; [lia|].
  destruct (draw rng_next (td_rng st) (length (td_R st))) as [idx rng'].
  rewrite IH; simpl; rewrite swap_pop_length; lia.
Qed.

Lemma td_take_edges j synth st :
  exists new, edges (td_graph (td_take_ j synth st)) = edges (td_graph st) ++ new.
Proof.
  revert st; induction j as [|j IH]; intros st; simpl.
  - exists []; rewrite app_nil_r; reflexivity.
  - destruct (draw rng_next (td_rng st) (length (td_R st))) as [idx rng'].
    match goal with |- context [td_take_ j synth ?s] => destruct (IH s) as (new & Hnew) end.
    rewrite Hnew; simpl; rewrite <- app_assoc; eauto.
Qed.

Lemma td_sample_inv x n st :
  td_inv x st -> td_inv x (td_sample_ n (num_vertices x) st).
Proof.
  intros Hinv; unfold td_sample.
  destruct (Nat.ltb_spec n (length (td_R st))) as [Hlt|Hge].
  - apply td_take_inv; [lia|exact Hinv].
  - destruct Hinv as (Hn & He & Hnd & Hr).
    assert (HR : Forall (fun v => v < num_vertices x) (td_R st)).
    { apply Forall_app in Hr; tauto. }
    split; [|split; [|split]]; simpl.
    + assert (Hs : scoped x (td_graph st)).
      { split; [exact Hn|]. eexists; split; [exact He|].
        apply Forall_forall; intros e Hin; apply in_map_iff in Hin.
        destruct Hin as (v & <- & _); unfold incident; simpl.
        rewrite Nat.eqb_refl, orb_true_r; reflexivity. }
      apply (scoped_wire_to Hs HR).
    + rewrite edges_wire_to, He, map_app, app_assoc; reflexivity.
    + rewrite app_nil_r; exact Hnd.
    + rewrite app_nil_r; exact Hr.
Qed.

Lemma td_sample_R_le n synth st :
  length (td_R (td_sample_ n synth st)) <= length (td_R st).
Proof.
  unfold td_sample. destruct (n <? length (td_R st)); simpl; [|lia].
  rewrite td_take_R_length; lia.
Qed.

Lemma td_sample_edges n synth st :
  exists new, edges (td_graph (td_sample_ n synth st)) = edges (td_graph st) ++ new.
Proof.
  unfold td_sample. destruct (n <? length (td_R st)); simpl.
  - apply td_take_edges.
  - rewrite edges_wire_to; eauto.
Qed.

Lemma td_prune_inv x st : td_inv x st -> td_inv x (td_prune_ st).
Proof.
  intros (Hn & He & Hnd & Hr); unfold td_prune.
  destruct (draw rng_next (td_rng st) (length (td_R st))) as [idx rng'].
  split; [|split; [|split]]; simpl; auto.
  - eapply NoDup_app_sub; [exact Hnd| |apply prune_incl].
    apply NoDup_filter. apply NoDup_app_remove_l in Hnd; exact Hnd.
  - apply Forall_app in Hr; destruct Hr as [HF HR].
    apply Forall_app; split; [exact HF|].
    rewrite Forall_forall in *; intros v Hv; eauto using prune_incl.
Qed.

Lemma td_prune_R_lt st :
  td_R st <> [] -> length (td_R (td_prune_ st)) < length (td_R st).
Proof.
  intros HR; unfold td_prune.
  destruct (draw rng_next (td_rng st) (length (td_R st))) as [idx rng'] eqn:E; simpl.
  apply prune_pivot. change idx with (fst (idx, rng')); rewrite <- E.
  apply draw_lt. destruct (td_R st); [congruence|discriminate].
Qed.

Lemma td_prune_keeps st :
  td_graph (td_prune_ st) = td_graph st /\
  td_F (td_prune_ st) = td_F st /\
  td_distances (td_prune_ st) = td_distances st.
Proof.
  unfold td_prune.
  destruct (draw rng_next (td_rng st) (length (td_R st))); simpl; auto.
Qed.

Lemma td_round_inv x n st :
  td_inv x st -> td_inv x (td_round_ n (num_vertices x) st).
Proof.
  intros Hinv; unfold td_round.
  assert (H1 : td_inv x (td_search_ (num_vertices x)
                           (td_sample_ n (num_vertices x) st))).
  { exact (td_sample_inv n Hinv). }
  destruct (td_R (td_search_ (num_vertices x) (td_sample_ n (num_vertices x) st)));
    [exact H1|apply td_prune_inv, H1].
Qed.

Lemma td_round_R_lt n synth st :
  td_R st <> [] -> length (td_R (td_round_ n synth st)) < length (td_R st).
Proof.
  intros HR; unfold td_round.
  pose proof (td_sample_R_le n synth st) as Hle.
  destruct (td_R (td_search_ synth (td_sample_ n synth st))) as [|h t] eqn:E.
  - rewrite E; simpl. destruct (td_R st); [congruence|simpl; lia].
  - eapply Nat.lt_le_trans; [apply td_prune_R_lt; rewrite E; discriminate|].
    exact Hle.
Qed.

Lemma td_round_searched n synth st : td_searched_ synth (td_round_ n synth st).
Proof.
  unfold td_round, td_searched.
  destruct (td_R (td_search_ synth (td_sample_ n synth st))); [reflexivity|].
  destruct (td_prune_keeps (td_search_ synth (td_sample_ n synth st)))
    as (-> & _ & ->); reflexivity.
Qed.

Lemma td_round_edges n synth st :
  exists new, edges (td_graph (td_round_ n synth st)) = edges (td_graph st) ++ new.
Proof.
  unfold td_round.
  destruct (td_R (td_search_ synth (td_sample_ n synth st)));
    [|destruct (td_prune_keeps (td_search_ synth (td_sample_ n synth st))) as (-> & _)];
    apply td_sample_edges.
Qed.

Lemma td_loop_inv x m n st :
  td_inv x st -> td_inv x (td_loop_ m n (num_vertices x) st).
Proof.
  revert st; induction m as [|m IH]; intros st Hinv; simpl; [exact Hinv|].
  destruct (td_R st); [exact Hinv|]. apply IH, td_round_inv, Hinv.
Qed.

Lemma td_loop_keeps_searched m n synth st :
  td_searched_ synth st -> td_searched_ synth (td_loop_ m n synth st).
Proof.
  revert st; induction m as [|m IH]; intros st Hs; simpl; [exact Hs|].
  destruct (td_R st); [exact Hs|]. apply IH, td_round_searched.
Qed.

Lemma td_loop_searched m n synth st :
  0 < m -> td_R st <> [] -> td_searched_ synth (td_loop_ m n synth st).
Proof.
  intros Hm HR; destruct m as [|m]; [lia|]; simpl.
  destruct (td_R st); [congruence|].
  apply td_loop_keeps_searched, td_round_searched.
Qed.

Lemma td_loop_R_le m n synth st :
  length (td_R (td_loop_ m n synth st)) <= length (td_R st).
Proof.
  revert st; induction m as [|m IH]; intros st; simpl; [lia|].
  destruct (td_R st) as [|h t] eqn:ER; [rewrite ER; simpl; lia|].
  etransitivity; [apply IH|].
  pose proof (@td_round_R_lt n synth st) as H. rewrite ER in H.
  apply Nat.lt_le_incl, H. discriminate.
Qed.

End ThorupDFacts.

(** ** Whole calls *)

Section Calls.

Variable RNG : Type.
Variable rng_seed : N -> RNG.
Variable rng_next : RNG -> N * RNG.
Variable dijkstra_shortest_paths : Graph -> Vertex -> list edge_cost * list Vertex.
Variable assert_connected : Graph -> bool.
Variable uninitialised : nat -> list edge_cost.

Local Abbreviation td_run_ := (td_run rng_next dijkstra_shortest_paths uninitialised).
Local Abbreviation thorup_d_ :=
  (thorup_d rng_next dijkstra_shortest_paths assert_connected uninitialised).
Local Abbreviation get_costs_ := (get_costs dijkstra_shortest_paths).

Lemma td_inv_scoped x (st : td_state RNG) : td_inv x st -> scoped x (td_graph st).
Proof.
  intros (Hn & He & _ & _). split; [exact Hn|]. eexists; split; [exact He|].
  apply Forall_forall; intros e Hin; apply in_map_iff in Hin.
  destruct Hin as (v & <- & _); unfold incident; simpl.
  rewrite Nat.eqb_refl, orb_true_r; reflexivity.
Qed.

Lemma td_inv_graph x (st : td_state RNG) :
  td_inv x st ->
  td_graph st = wire_to (num_vertices x) (td_F st) (fst (add_vertex x)).
Proof.
  intros Hinv. pose proof Hinv as (Hn & He & _ & Hr).
  apply Forall_app in Hr; destruct Hr as [HF _].
  apply graph_eq.
  - rewrite Hn. symmetry.
    apply (scoped_wire_to (scoped_acquire x) HF).
  - rewrite He, edges_wire_to; reflexivity.
Qed.

Lemma td_run_inv x rng n m : td_inv x (td_run_ x rng n m).
Proof.
  unfold td_run; simpl. apply td_loop_inv.
  split; [|split; [|split]]; simpl; auto.
  - rewrite app_nil_r; reflexivity.
  - apply seq_NoDup.
  - apply Forall_forall; intros v Hv; apply in_seq in Hv; lia.
Qed.

Lemma td_run_searched x rng n m :
  0 < num_vertices x -> 0 < m ->
  td_searched dijkstra_shortest_paths (num_vertices x) (td_run_ x rng n m).
Proof.
  intros Hx Hm; unfold td_run; simpl. apply td_loop_searched; [exact Hm|].
  simpl; unfold vertices. destruct (num_vertices x); [lia|discriminate].
Qed.

Lemma thorup_d_restores x rng n m :
  wf_graph x -> fst (fst (thorup_d_ x rng n m)) = x.
Proof.
  intros Hwf; unfold thorup_d.
  destruct (assert_connected x); simpl; [|reflexivity].
  assert (Hr : ScopedSyntheticVertex.release (num_vertices x)
                 (td_graph (td_run_ x rng n m)) = x).
  { apply release_scoped; [exact Hwf|]. apply td_inv_scoped, td_run_inv. }
  destruct (assert_connected (td_graph (td_run_ x rng n m))); simpl; exact Hr.
Qed.

Lemma thorup_d_returns x rng n m :
  wf_graph x ->
  assert_connected x = true ->
  assert_connected (td_graph (td_run_ x rng n m)) = true ->
  thorup_d_ x rng n m
  = (x, td_rng (td_run_ x rng n m),
     Returned (td_F (td_run_ x rng n m),
               sum_costs (firstn (num_vertices x)
                                 (td_distances (td_run_ x rng n m))))).
Proof.
  intros Hwf H1 H2; unfold thorup_d. rewrite H1, H2; simpl.
  rewrite Nat.sub_0_r. repeat f_equal.
  apply release_scoped; [exact Hwf|]. apply td_inv_scoped, td_run_inv.
Qed.

Lemma gc_query_scoped x container :
  Forall (fun v => v < num_vertices x) container ->
  scoped x (gc_query x container).
Proof.
  intros Hc; unfold gc_query; simpl.
  apply (scoped_wire_from (scoped_acquire x) Hc).
Qed.

Lemma get_costs_restores fuel x container :
  wf_graph x -> Forall (fun v => v < num_vertices x) container ->
  is_exit (snd (get_costs_ fuel x container)) = true ->
  fst (get_costs_ fuel x container) = x.
Proof.
  intros Hwf Hc; unfold get_costs.
  destruct (dijkstra_shortest_paths (gc_query x container) (num_vertices x))
    as [costs p].
  destruct (resolve_all fuel p (num_vertices x) (pid2ind_fill 0 container [])
                        (seq 0 (num_vertices x))); simpl; intros Hex;
    try discriminate;
    apply release_scoped; auto using gc_query_scoped.
Qed.

End Calls.

Lemma sfg_queries_wired (RNG : Type) (rng_next : RNG -> N * RNG)
      (dijkstra_shortest_paths : Graph -> Vertex -> list edge_cost * list Vertex)
      (container : list Vertex) it s synth (st : sfg_state RNG) :
  (exists l, sfg_F st = container ++ l) ->
  Forall (fun q => forall v, In v container -> In (synth, v, 0%Z) (edges q))
         (sfg_queries rng_next dijkstra_shortest_paths it s synth st).
Proof.
  revert st; induction it as [|it IH]; intros st (l & Hl); simpl; [constructor|].
  destruct (sfg_R st) as [|h t] eqn:ER; [constructor|].
  assert (Hpre : exists l', sfg_F (sfg_round rng_next dijkstra_shortest_paths s synth st)
                            = container ++ l').
  { rewrite sfg_round_F.
    destruct (draw_samples_prefix rng_next s (sfg_R st) (sfg_F st) (sfg_rng st))
      as (new & -> & _).
    rewrite Hl, <- app_assoc; eauto. }
  constructor; [|apply IH, Hpre].
  intros v Hv. unfold sfg_query. rewrite edges_wire_from.
  apply in_or_app; right. destruct Hpre as (l' & ->).
  apply in_map_iff; exists v; split; [reflexivity|].
  apply in_or_app; left; exact Hv.
Qed.

(** ** Claims about the samplers *)


Lemma path5_wf : wf_graph (Reference.path_graph 5 1%Z).
Proof. repeat constructor. Defined.


Example thorup_d_path5 :
  Run.thorup_d (Reference.path_graph 5 1%Z) 7%N 1 1
  = (Reference.path_graph 5 1%Z, 17628806926561717905%N, Returned ([3], 7%Z)).
Proof. vm_compute. reflexivity. Qed.

(** C4, as the code has it.  In a round of [sample_from_graph] entered
    with a non-empty pool, exactly [samples_per_round] vertices are drawn,
    each [R[rng() % |R|]] from the unchanged pool, and appended to the
    sample in order; the size of the pool does not bound the count. *)
Theorem sfg_round_draws
        (RNG : Type) (rng_next : RNG -> N * RNG)
        (dijkstra_shortest_paths : Graph -> Vertex -> list edge_cost * list Vertex)
        (samples_per_round : nat) (synthetic_vertex : Vertex) (st : sfg_state RNG)
        (HR : sfg_R st <> []) :
  let drawn := draws_with_replacement rng_next samples_per_round (sfg_R st) (sfg_rng st) in
  sfg_F (sfg_round rng_next dijkstra_shortest_paths samples_per_round synthetic_vertex st)
  = sfg_F st ++ drawn
  /\ length drawn = samples_per_round
  /\ Forall (fun v => In v (sfg_R st)) drawn.
Proof.
  cbv zeta. split; [|split].
  - rewrite sfg_round_F. apply draw_samples_nonempty; exact HR.
  - apply draws_with_replacement_length.
  - apply draws_with_replacement_in; exact HR.
Qed.

Lemma sfg_round_draws_witness :
  let st := mkSfg (Reference.path_graph 2 1%Z) [0; 1] [] 7%N in
  length (sfg_F (sfg_round Reference.rng_next Reference.dijkstra_shortest_paths 3 2 st)) = 3.
Proof.
  intros st.
  destruct (@sfg_round_draws Reference.RNG Reference.rng_next
              Reference.dijkstra_shortest_paths 3 2 st ltac:(discriminate))
    as (HF & Hlen & _).
  rewrite HF, length_app, Hlen. reflexivity.
Defined.

(** C4 as stated fails: on the two-vertex path with three samples per
    round, the single round draws three vertices, not [min 3 2]. *)
Lemma sfg_round_draws_exceed_pool :
  let x := Reference.path_graph 2 1%Z in
  length (vertices x) = 2
  /\ length (snd (Run.sample_from_graph x 3 1 [] 7%N)) = 3
  /\ length (snd (Run.sample_from_graph x 3 1 [] 7%N))
     <> Nat.min 3 (length (vertices x)).
Proof. vm_compute. repeat split; discriminate. Qed.

(** C8.  A round is entered only with a non-empty pool, and then the pool
    comes out strictly smaller, in [sample_from_graph] and in [thorup_d]
    alike: the pivot itself satisfies [d[pivot] <= minv], whatever its
    distance.  Over any number of rounds the pool never grows. *)
Theorem pool_shrinks
        (RNG : Type) (rng_next : RNG -> N * RNG)
        (dijkstra_shortest_paths : Graph -> Vertex -> list edge_cost * list Vertex)
        (samples_per_round nperround : nat) (synthetic_vertex : Vertex)
        (st : sfg_state RNG) (st' : td_state RNG)
        (HR : sfg_R st <> []) (HR' : td_R st' <> []) :
  length (sfg_R (sfg_round rng_next dijkstra_shortest_paths
                           samples_per_round synthetic_vertex st))
  < length (sfg_R st)
  /\ length (td_R (td_round rng_next dijkstra_shortest_paths
                            nperround synthetic_vertex st'))
     < length (td_R st')
  /\ (forall iterations,
         length (sfg_R (sfg_loop rng_next dijkstra_shortest_paths iterations
                                 samples_per_round synthetic_vertex st))
         <= length (sfg_R st))
  /\ (forall maxnumrounds,
         length (td_R (td_loop rng_next dijkstra_shortest_paths maxnumrounds
                               nperround synthetic_vertex st'))
         <= length (td_R st')).
Proof.
  split; [|split; [|split]].
  - apply sfg_round_R_lt; exact HR.
  - apply td_round_R_lt; exact HR'.
  - intros it; apply sfg_loop_R_le.
  - intros m; apply td_loop_R_le.
Qed.

Lemma pool_shrinks_witness :
  let x := fst (add_vertex (Reference.path_graph 5 1%Z)) in
  let st := mkSfg x [0; 1; 2; 3; 4] [] 7%N in
  let st' := mkTd x [0; 1; 2; 3; 4] [] [] 7%N in
  length (sfg_R (sfg_round Reference.rng_next Reference.dijkstra_shortest_paths 1 5 st)) < 5
  /\ length (td_R (td_round Reference.rng_next Reference.dijkstra_shortest_paths 1 5 st')) < 5.
Proof.
  intros x st st'.
  destruct (@pool_shrinks Reference.RNG Reference.rng_next
              Reference.dijkstra_shortest_paths 1 1 5 st st'
              ltac:(discriminate) ltac:(discriminate))
    as (H1 & H2 & _).
  split; [exact H1|exact H2].
Defined.

(** C9.  On a well-formed graph, with every handle of a caller-supplied
    container a vertex of the graph, each operation that opens the scope
    leaves the graph exactly as it found it, hence with the same vertex
    and edge counts: [sample_from_graph] and [thorup_d] on their only
    exits (the return, the failed connectivity checks), [get_costs] on
    return and on the propagated [OutOfRange]. *)
Theorem scope_restores_graph
        (RNG : Type) (rng_seed : N -> RNG) (rng_next : RNG -> N * RNG)
        (dijkstra_shortest_paths : Graph -> Vertex -> list edge_cost * list Vertex)
        (assert_connected : Graph -> bool) (uninitialised : nat -> list edge_cost)
        (x : Graph) (container : list Vertex)
        (Hwf : wf_graph x)
        (Hc : Forall (fun v => v < num_vertices x) container) :
  (forall s it seed,
      let x' := fst (sample_from_graph rng_seed rng_next dijkstra_shortest_paths
                                       x s it container seed) in
      x' = x /\ same_counts x x')
  /\ (forall rng n m,
         let x' := fst (fst (thorup_d rng_next dijkstra_shortest_paths assert_connected
                                      uninitialised x rng n m)) in
         x' = x /\ same_counts x x')
  /\ (forall fuel,
         is_exit (snd (get_costs dijkstra_shortest_paths fuel x container)) = true ->
         let x' := fst (get_costs dijkstra_shortest_paths fuel x container) in
         x' = x /\ same_counts x x').
Proof.
  assert (Hsame : forall x', x' = x -> x' = x /\ same_counts x x').
  { intros x' ->; repeat split. }
  split; [|split]; intros; apply Hsame.
  - apply sample_from_graph_restores; assumption.
  - apply thorup_d_restores; assumption.
  - apply get_costs_restores; assumption.
Qed.

Lemma scope_restores_graph_witness :
  let x := Reference.path_graph 5 1%Z in
  fst (Run.sample_from_graph x 3 2 [4] 7%N) = x
  /\ fst (fst (Run.thorup_d x 7%N 1 1)) = x
  /\ fst (Run.get_costs 10 x [4]) = x.
Proof.
  intros x.
  destruct (@scope_restores_graph Reference.RNG Reference.rng_seed Reference.rng_next
              Reference.dijkstra_shortest_paths Reference.assert_connected
              Reference.uninitialised x [4] path5_wf
              ltac:(repeat constructor))
    as (H1 & H2 & H3).
  split; [|split].
  - apply (H1 3 2 7%N).
  - apply (H2 7%N 1 1).
  - apply (H3 10). vm_compute. reflexivity.
Defined.


Example sample_from_graph_keeps_container :
  snd (Run.sample_from_graph (Reference.path_graph 5 1%Z) 3 2 [4] 7%N)
  = [4; 3; 1; 3; 2; 2; 0].
Proof. vm_compute. reflexivity. Qed.

(** ** Best of trials *)

Section BestOfTrials.

Variable RNG : Type.
Variable rng_seed : N -> RNG.
Variable rng_next : RNG -> N * RNG.
Variable dijkstra_shortest_paths : Graph -> Vertex -> list edge_cost * list Vertex.
Variable assert_connected : Graph -> bool.
Variable uninitialised : nat -> list edge_cost.

Local Abbreviation thorup_d_ :=
  (thorup_d rng_next dijkstra_shortest_paths assert_connected uninitialised).
Local Abbreviation tsm_loop_ :=
  (tsm_loop rng_next dijkstra_shortest_paths assert_connected uninitialised).
Local Abbreviation run_trials_ :=
  (run_trials rng_next dijkstra_shortest_paths assert_connected uninitialised).
Local Abbreviation best_of_trials_ :=
  (best_of_trials rng_seed rng_next dijkstra_shortest_paths assert_connected
                  uninitialised).

Lemma run_trials_length count x rng n m x' rng' l :
  run_trials_ count x rng n m = (x', rng', Returned l) -> length l = count.
Proof.
  revert x rng x' rng' l; induction count as [|c IH]; intros x rng x' rng' l; simpl.
  - intros E; inversion E; reflexivity.
  - destruct (thorup_d_ x rng n m) as [[x1 rng1] [s|e|]]; try discriminate.
    destruct (run_trials_ c x1 rng1 n m) as [[x2 rng2] [l2|e|]] eqn:E2;
      try discriminate.
    intros E; inversion E; subst; simpl. f_equal. eapply IH; eassumption.
Qed.

Lemma tsm_loop_run_trials count x rng n m best :
  tsm_loop_ count x rng n m best
  = match run_trials_ count x rng n m with
    | (x', rng', Returned l) => (x', rng', Returned (lowest_cost best l))
    | (x', rng', Thrown e) => (x', rng', Thrown e)
    | (x', rng', Diverged) => (x', rng', Diverged)
    end.
Proof.
  revert x rng best; induction count as [|c IH]; intros x rng best; simpl;
    [reflexivity|].
  destruct (thorup_d_ x rng n m) as [[x1 rng1] [s|e|]]; try reflexivity.
  rewrite IH.
  destruct (run_trials_ c x1 rng1 n m) as [[x2 rng2] [l2|e|]]; reflexivity.
Qed.

Lemma keep_best_cases best next :
  (keep_best best next = best /\ (snd best <= snd next)%Z)
  \/ (keep_best best next = next /\ (snd next < snd best)%Z).
Proof.
  unfold keep_best. destruct (Z.ltb_spec (snd next) (snd best)); [right|left]; auto.
Qed.

Lemma lowest_cost_spec first rest :
  In (lowest_cost first rest) (first :: rest)
  /\ Forall (fun t => (snd (lowest_cost first rest) <= snd t)%Z) (first :: rest).
Proof.
  unfold lowest_cost; revert first; induction rest as [|t rest IH]; intros first; simpl.
  - split; [auto|]. constructor; [apply Z.le_refl|constructor].
  - destruct (IH (keep_best first t)) as (Hin & Hall).
    inversion Hall as [|? ? Hb Hrest]; subst.
    destruct (keep_best_cases first t) as [[E Hle]|[E Hlt]]; rewrite E in *.
    + split; [destruct Hin as [<-|Hin]; auto|].
      constructor; [exact Hb|].
      constructor; [eapply Z.le_trans; eassumption|exact Hrest].
    + split; [destruct Hin as [<-|Hin]; auto|].
      constructor; [|constructor; [exact Hb|exact Hrest]].
      eapply Z.le_trans; [exact Hb|apply Z.lt_le_incl, Hlt].
Qed.

Lemma thorup_sample_mincost_best_of_trials fuel x k seed num_iter :
  thorup_sample_mincost rng_seed rng_next dijkstra_shortest_paths assert_connected
                        uninitialised fuel x k seed num_iter
  = best_of_trials_ fuel x k seed num_iter.
Proof.
  unfold thorup_sample_mincost, best_of_trials.
  assert (E : Nat.max 1 num_iter = S (num_iter - 1)).
  { destruct num_iter as [|c]; [reflexivity|]. simpl. rewrite Nat.sub_0_r. reflexivity. }
  rewrite E. cbn [run_trials].
  destruct (thorup_d_ x (rng_seed seed) (samples_per_round k (num_vertices x))
                      (max_rounds (num_vertices x))) as [[x1 rng1] [s|e|]];
    try reflexivity.
  rewrite tsm_loop_run_trials.
  destruct (run_trials_ (num_iter - 1) x1 rng1 (samples_per_round k (num_vertices x))
                       (max_rounds (num_vertices x))) as [[x2 rng2] [l|e|]];
    reflexivity.
Qed.

(** The generator and the graph after the trials do not depend on the
    incumbent solution. *)
Lemma tsm_loop_stream count x rng n m best1 best2 :
  fst (tsm_loop_ count x rng n m best1) = fst (tsm_loop_ count x rng n m best2).
Proof.
  rewrite !tsm_loop_run_trials.
  destruct (run_trials_ count x rng n m) as [[x' rng'] [l|e|]]; reflexivity.
Qed.

End BestOfTrials.

(** C1, as the code has it.  [thorup_sample_mincost] is the best-of-trials
    selector: it runs [thorup_d] [max 1 num_iter] times on one generator
    that is seeded once and handed from trial to trial, keeps the pair of
    lowest cost (the earliest among equals), calls [get_costs] once, on the
    winning sample, and returns the pair (SampleSet, AssignmentVector): the
    cost vector that [get_costs] computed is dropped.  A failure of a
    trial or of the assigner is the failure of the call. *)
Theorem thorup_sample_mincost_is_best_of_trials
        (RNG : Type) (rng_seed : N -> RNG) (rng_next : RNG -> N * RNG)
        (dijkstra_shortest_paths : Graph -> Vertex -> list edge_cost * list Vertex)
        (assert_connected : Graph -> bool) (uninitialised : nat -> list edge_cost)
        (fuel : nat) (x : Graph) (k : nat) (seed : N) (num_iter : nat) :
  thorup_sample_mincost rng_seed rng_next dijkstra_shortest_paths assert_connected
                        uninitialised fuel x k seed num_iter
  = best_of_trials rng_seed rng_next dijkstra_shortest_paths assert_connected
                   uninitialised fuel x k seed num_iter
  /\ (forall count x0 rng n m x' rng' trials,
         run_trials rng_next dijkstra_shortest_paths assert_connected uninitialised
                    count x0 rng n m = (x', rng', Returned trials) ->
         length trials = count)
  /\ (forall first rest,
         In (lowest_cost first rest) (first :: rest)
         /\ Forall (fun t => (snd (lowest_cost first rest) <= snd t)%Z) (first :: rest)).
Proof.
  split; [|split].
  - apply thorup_sample_mincost_best_of_trials.
  - intros. eapply run_trials_length; eassumption.
  - apply lowest_cost_spec.
Qed.

(** C1 as stated fails: the value returned carries no cost vector.  On
    the stars with 400 vertices and edge weight 1, resp. 2, the call
    returns the same value, while the cost vectors of the winning sample
    differ (their sums are 71 and 142). *)
Lemma thorup_sample_mincost_drops_costs :
  let x1 := Reference.star_graph 400 1%Z in
  let x2 := Reference.star_graph 400 2%Z in
  snd (Run.thorup_sample_mincost 400 x1 1 7%N 1)
  = snd (Run.thorup_sample_mincost 400 x2 1 7%N 1)
  /\ is_returned (snd (Run.thorup_sample_mincost 400 x1 1 7%N 1)) = true
  /\ option_map sum_costs (winning_costs 400 x1 1 7%N 1) = Some 71%Z
  /\ option_map sum_costs (winning_costs 400 x2 1 7%N 1) = Some 142%Z.
Proof. vm_compute. repeat split. Qed.

(** ** The distance buffer before the first round *)

Section Buffer.

Variable RNG : Type.
Variable rng_seed : N -> RNG.
Variable rng_next : RNG -> N * RNG.
Variable dijkstra_shortest_paths : Graph -> Vertex -> list edge_cost * list Vertex.
Variable assert_connected : Graph -> bool.

Lemma td_take_with_distances d j synth st :
  td_take rng_next j synth (with_distances d st)
  = with_distances d (td_take rng_next j synth st).
Proof.
  revert st; induction j as [|j IH]; intros st; simpl; [reflexivity|].
  destruct (draw rng_next (td_rng st) (length (td_R st))) as [idx rng'].
  apply (IH (mkTd _ _ _ _ _)).
Qed.

Lemma td_round_with_distances d n synth st :
  td_round rng_next dijkstra_shortest_paths n synth (with_distances d st)
  = td_round rng_next dijkstra_shortest_paths n synth st.
Proof.
  unfold td_round.
  assert (E : td_search dijkstra_shortest_paths synth
                        (td_sample rng_next n synth (with_distances d st))
              = td_search dijkstra_shortest_paths synth
                          (td_sample rng_next n synth st)).
  { unfold td_sample; simpl.
    destruct (n <? length (td_R st)); [|reflexivity].
    rewrite td_take_with_distances; reflexivity. }
  rewrite E; reflexivity.
Qed.

Lemma td_run_buffer u1 u2 x rng n m :
  0 < num_vertices x -> 0 < m ->
  td_run rng_next dijkstra_shortest_paths u1 x rng n m
  = td_run rng_next dijkstra_shortest_paths u2 x rng n m.
Proof.
  intros Hx Hm; unfold td_run; simpl.
  destruct m as [|m]; [lia|]. simpl.
  unfold vertices. destruct (num_vertices x) as [|k] eqn:E; [lia|].
  simpl seq. cbv iota.
  match goal with |- td_loop _ _ _ _ _ (td_round _ _ _ _ ?s1) = td_loop _ _ _ _ _ (td_round _ _ _ _ ?s2) =>
    change s1 with (with_distances (u1 (S (S k))) s2) end.
  rewrite td_round_with_distances; reflexivity.
Qed.

Lemma thorup_d_buffer u1 u2 x rng n m :
  0 < num_vertices x -> 0 < m ->
  thorup_d rng_next dijkstra_shortest_paths assert_connected u1 x rng n m
  = thorup_d rng_next dijkstra_shortest_paths assert_connected u2 x rng n m.
Proof.
  intros Hx Hm; unfold thorup_d. rewrite (td_run_buffer u1 u2 x rng n Hx Hm).
  reflexivity.
Qed.

Lemma tsm_loop_buffer u1 u2 count x rng n m best :
  wf_graph x -> 0 < num_vertices x -> 0 < m ->
  tsm_loop rng_next dijkstra_shortest_paths assert_connected u1 count x rng n m best
  = tsm_loop rng_next dijkstra_shortest_paths assert_connected u2 count x rng n m best.
Proof.
  intros Hwf Hx Hm; revert rng best; induction count as [|c IH]; intros rng best;
    simpl; [reflexivity|].
  rewrite (thorup_d_buffer u1 u2 x rng n Hx Hm).
  pose proof (thorup_d_restores rng_next dijkstra_shortest_paths assert_connected
                                u2 rng n m Hwf) as Hr.
  destruct (thorup_d rng_next dijkstra_shortest_paths assert_connected u2 x rng n m)
    as [[x1 rng1] [s|e|]]; try reflexivity.
  simpl in Hr; subst x1. apply IH.
Qed.

Lemma max_rounds_pos n : 2 <= n -> 0 < max_rounds n.
Proof.
  intros Hn; unfold max_rounds.
  assert (H : (0 < Z.log2 (Z.of_nat n ^ 3))%Z).
  { apply Z.log2_pos. apply Z.pow_gt_1; lia. }
  lia.
Qed.

Lemma thorup_sample_mincost_buffer u1 u2 fuel x k seed num_iter :
  wf_graph x -> 2 <= num_vertices x ->
  thorup_sample_mincost rng_seed rng_next dijkstra_shortest_paths assert_connected
                        u1 fuel x k seed num_iter
  = thorup_sample_mincost rng_seed rng_next dijkstra_shortest_paths assert_connected
                          u2 fuel x k seed num_iter.
Proof.
  intros Hwf Hx. pose proof (max_rounds_pos Hx) as Hm.
  assert (Hx0 : 0 < num_vertices x) by lia.
  unfold thorup_sample_mincost.
  rewrite (thorup_d_buffer u1 u2 x (rng_seed seed)
                           (samples_per_round k (num_vertices x)) Hx0 Hm).
  pose proof (thorup_d_restores rng_next dijkstra_shortest_paths assert_connected
                                u2 (rng_seed seed)
                                (samples_per_round k (num_vertices x))
                                (max_rounds (num_vertices x)) Hwf) as Hr.
  destruct (thorup_d rng_next dijkstra_shortest_paths assert_connected u2 x
                     (rng_seed seed) (samples_per_round k (num_vertices x))
                     (max_rounds (num_vertices x))) as [[x1 rng1] [s|e|]];
    try reflexivity.
  simpl in Hr; subst x1.
  rewrite (tsm_loop_buffer u1 u2 (num_iter - 1) rng1
                           (samples_per_round k (num_vertices x)) s Hwf Hx0 Hm).
  reflexivity.
Qed.

End Buffer.



(** ** Failures *)

Lemma walk_done fuel p synth parent : walk fuel p synth parent synth = Some parent.
Proof. destruct fuel; simpl; rewrite Nat.eqb_refl; reflexivity. Qed.

(** A vertex that is its own predecessor, other than the synthetic one,
    keeps the walk going for ever. *)
Lemma walk_stuck (p : list Vertex) (synth v : Vertex) :
  nth v p 0 = v -> v <> synth ->
  forall fuel parent, walk fuel p synth parent v = None.
Proof.
  intros Hp Hv; induction fuel as [|fuel IH]; intros parent; cbn [walk];
    rewrite (proj2 (Nat.eqb_neq v synth) Hv); [reflexivity|].
  rewrite Hp; apply IH.
Qed.



(** C6, at the failing input.  Vertex [2] of the graph [0 - 1, 2] is not
    reached from the sample [[0]]: Dijkstra leaves it as its own
    predecessor, and the walk of [get_costs] for it never ends, whatever
    the fuel.  The call neither fails nor returns. *)
Theorem get_costs_unreachable_vertex_diverges (fuel : nat) :
  let x := mkGraph 3 [(0, 1, 1%Z)] in
  Reference.dijkstra_shortest_paths (gc_query x [0]) 3
  = ([0%Z; 1%Z; Reference.dist_inf; 0%Z], [3; 0; 2; 3])
  /\ Run.get_costs fuel x [0] = (gc_query x [0], Diverged).
Proof.
  intros x.
  assert (E : Reference.dijkstra_shortest_paths (gc_query x [0]) (num_vertices x)
              = ([0%Z; 1%Z; Reference.dist_inf; 0%Z], [3; 0; 2; 3])).
  { vm_compute. reflexivity. }
  split; [exact E|].
  unfold Run.get_costs, get_costs. rewrite E.
  change (seq 0 (num_vertices x)) with [0; 1; 2].
  assert (H0 : resolve fuel [3; 0; 2; 3] 3 (pid2ind_fill 0 [0] []) 0 = Returned 0).
  { unfold resolve; simpl nth. rewrite walk_done. reflexivity. }
  assert (H1 : resolve fuel [3; 0; 2; 3] 3 (pid2ind_fill 0 [0] []) 1 = Returned 0).
  { unfold resolve; simpl nth. rewrite walk_done. reflexivity. }
  assert (H2 : resolve fuel [3; 0; 2; 3] 3 (pid2ind_fill 0 [0] []) 2 = Diverged).
  { unfold resolve; simpl nth. rewrite walk_stuck; [reflexivity|reflexivity|discriminate]. }
  cbn [resolve_all]. change (num_vertices x) with 3. rewrite H0, H1, H2. reflexivity.
Qed.

(** ** Shortest paths and the assignment *)

Lemma joinsb_joins e u v : joinsb e u v = true -> joins e u v.
Proof.
  unfold joinsb, joins; intros H.
  apply orb_true_iff in H; destruct H as [H|H];
    apply andb_true_iff in H; destruct H as [H1 H2];
    apply Nat.eqb_eq in H1, H2; auto.
Qed.

Lemma climbsb_climb p s fuel v :
  climbsb p s fuel v = true -> exists k, k <= fuel /\ climb p k v = s.
Proof.
  revert v; induction fuel as [|fuel IH]; intros v; simpl; intros H;
    apply orb_true_iff in H; destruct H as [H|H].
  - exists 0; split; [lia|]; apply Nat.eqb_eq in H; exact H.
  - discriminate.
  - exists 0; split; [lia|]; apply Nat.eqb_eq in H; exact H.
  - destruct (IH _ H) as (k & Hk & Hc). exists (S k); split; [lia|exact Hc].
Qed.

Section Certificate.

Variable q : Graph.
Variable s : Vertex.
Variable d : list edge_cost.
Variable p : list Vertex.
Hypothesis Hcheck : sssp_check q s d p = true.

Lemma check_parts :
  length d = num_vertices q /\ length p = num_vertices q
  /\ nth s d 0%Z = 0%Z /\ nth s p 0 = s
  /\ forallb (relaxedb d) (edges q) = true
  /\ forallb (fun v => (v =? s) || existsb (tree_edgeb d p v) (edges q))
             (vertices q) = true
  /\ forallb (climbsb p s (num_vertices q)) (vertices q) = true
  /\ forallb (source_firstb p s) (edges q) = true.
Proof.
  pose proof Hcheck as H. unfold sssp_check in H.
  repeat (apply andb_true_iff in H as [H ?]).
  repeat split; try assumption;
    first [apply Nat.eqb_eq; assumption|apply Z.eqb_eq; assumption].
Qed.

Lemma check_lengths : length d = num_vertices q /\ length p = num_vertices q.
Proof. destruct check_parts as (? & ? & _); auto. Qed.

Lemma check_source : nth s d 0%Z = 0%Z /\ nth s p 0 = s.
Proof. destruct check_parts as (_ & _ & ? & ? & _); auto. Qed.

Lemma check_relaxed e u v :
  In e (edges q) -> joins e u v -> (nth v d 0 <= nth u d 0 + e_weight e)%Z.
Proof.
  intros Hin Hj. destruct check_parts as (_ & _ & _ & _ & Hrel & _).
  rewrite forallb_forall in Hrel. specialize (Hrel e Hin).
  apply andb_true_iff in Hrel; destruct Hrel as [Ha Hb].
  apply Z.leb_le in Ha, Hb.
  destruct Hj as [[<- <-]|[<- <-]]; assumption.
Qed.

Lemma check_tree v :
  v < num_vertices q -> v <> s ->
  exists e, In e (edges q) /\ joins e (nth v p 0) v
            /\ nth v d 0%Z = (nth (nth v p 0%nat) d 0 + e_weight e)%Z.
Proof.
  intros Hv Hs. destruct check_parts as (_ & _ & _ & _ & _ & Htree & _).
  rewrite forallb_forall in Htree.
  assert (Hin : In v (vertices q)) by (apply in_seq; lia).
  specialize (Htree v Hin). apply orb_true_iff in Htree; destruct Htree as [H|H].
  - apply Nat.eqb_eq in H; contradiction.
  - apply existsb_exists in H; destruct H as (e & He & Ht).
    apply andb_true_iff in Ht; destruct Ht as [Hj Hd].
    exists e; split; [exact He|split]; [apply joinsb_joins, Hj|apply Z.eqb_eq, Hd].
Qed.

Lemma check_rooted v :
  v < num_vertices q -> exists k, k <= num_vertices q /\ climb p k v = s.
Proof.
  intros Hv. destruct check_parts as (_ & _ & _ & _ & _ & _ & Hroot & _).
  rewrite forallb_forall in Hroot. apply climbsb_climb, Hroot, in_seq; lia.
Qed.

Lemma check_source_first e v :
  In e (edges q) -> joins e s v -> e_weight e = 0%Z -> nth v p 0 = s.
Proof.
  intros Hin Hj Hw. destruct check_parts as (_ & _ & _ & _ & _ & _ & _ & Hfirst).
  rewrite forallb_forall in Hfirst. specialize (Hfirst e Hin).
  apply orb_true_iff in Hfirst; destruct Hfirst as [H|H].
  - rewrite Hw in H; discriminate.
  - apply andb_true_iff in H; destruct H as [Ha Hb].
    destruct Hj as [[Hs <-]|[<- Hs]].
    + apply orb_true_iff in Ha; destruct Ha as [Ha|Ha]; [|apply Nat.eqb_eq, Ha].
      rewrite Hs, Nat.eqb_refl in Ha; discriminate.
    + apply orb_true_iff in Hb; destruct Hb as [Hb|Hb]; [|apply Nat.eqb_eq, Hb].
      rewrite Hs, Nat.eqb_refl in Hb; discriminate.
Qed.

(** No path undercuts the distances. *)
Lemma check_lower_bound u v w :
  path_weight q u v w -> (nth v d 0 <= nth u d 0 + w)%Z.
Proof.
  induction 1 as [u|u v t e w Hp IH Hin Hj]; [lia|].
  pose proof (check_relaxed Hin Hj). lia.
Qed.

End Certificate.

(** *** The index map *)

Lemma pid2ind_fill_some (container : list Vertex) i m v idx :
  pid2ind_find v (pid2ind_fill i container m) = Some idx ->
  (i <= idx /\ nth_error container (idx - i) = Some v)
  \/ pid2ind_find v m = Some idx.
Proof.
  revert i m; induction container as [|h t IH]; intros i m; simpl; [auto|].
  intros H. destruct (IH _ _ H) as [[Hle Hn]|Hm].
  - left; split; [lia|]. replace (idx - i) with (S (idx - S i)) by lia. exact Hn.
  - simpl in Hm. destruct (Nat.eqb_spec h v) as [->|Hne]; [|auto].
    inversion Hm; subst. left; split; [lia|]. rewrite Nat.sub_diag; reflexivity.
Qed.

Lemma pid2ind_fill_bound (container : list Vertex) i m v :
  In v container \/ pid2ind_find v m <> None ->
  exists idx, pid2ind_find v (pid2ind_fill i container m) = Some idx.
Proof.
  revert i m; induction container as [|h t IH]; intros i m; simpl.
  - intros [[]|H]. destruct (pid2ind_find v m) as [idx|]; [eauto|congruence].
  - intros H. apply IH. simpl.
    destruct (Nat.eqb_spec h v) as [->|Hne]; [right; discriminate|].
    destruct H as [[H|H]|H]; [congruence|auto|auto].
Qed.

Lemma pid2ind_find_member (container : list Vertex) v :
  In v container ->
  exists idx, pid2ind_find v (pid2ind_fill 0 container []) = Some idx
              /\ nth_error container idx = Some v.
Proof.
  intros Hin. destruct (@pid2ind_fill_bound container 0 [] v (or_introl Hin)) as (idx & H).
  exists idx; split; [exact H|].
  destruct (pid2ind_fill_some _ _ _ _ H) as [[_ Hn]|Hm]; [|discriminate].
  rewrite Nat.sub_0_r in Hn; exact Hn.
Qed.

Lemma pid2ind_find_stranger (container : list Vertex) v :
  ~ In v container -> pid2ind_find v (pid2ind_fill 0 container []) = None.
Proof.
  intros Hnin. destruct (pid2ind_find v (pid2ind_fill 0 container [])) as [idx|] eqn:E;
    [|reflexivity].
  destruct (pid2ind_fill_some _ _ _ _ E) as [[_ Hn]|Hm]; [|discriminate].
  apply nth_error_In in Hn; contradiction.
Qed.

(** *** The walk of get_costs on a checked result *)

Unset Implicit Arguments.

Section Assignment.

Variable x : Graph.
Variable container : list Vertex.
Variable d : list edge_cost.
Variable p : list Vertex.

Hypothesis Hwf : wf_graph x.
Hypothesis Hc : Forall (fun v => v < num_vertices x) container.
Hypothesis Hcheck : sssp_check (gc_query x container) (num_vertices x) d p = true.

Local Abbreviation nv := (num_vertices x).
Local Abbreviation q := (gc_query x container).
Local Abbreviation D v := (nth v d 0%Z).
Local Abbreviation P v := (nth v p 0).
Local Abbreviation assigned_ := (assigned x container d).

Lemma q_num_vertices : num_vertices q = S nv.
Proof. apply (@gc_query_scoped x container Hc). Qed.

Lemma q_edges : edges q = edges x ++ map (fun v => (nv, v, 0%Z)) container.
Proof. unfold gc_query; simpl. rewrite edges_wire_from; reflexivity. Qed.

Lemma q_edge_cases e :
  In e (edges q) ->
  (In e (edges x) /\ e_src e < nv /\ e_dst e < nv)
  \/ (exists c, In c container /\ e = (nv, c, 0%Z)).
Proof.
  rewrite q_edges, in_app_iff, in_map_iff. intros [H|(c & <- & Hin)].
  - left. split; [exact H|]. unfold wf_graph in Hwf. rewrite Forall_forall in Hwf.
    apply (Hwf e H).
  - right; eauto.
Qed.

Lemma path_lift u v w : path_weight x u v w -> path_weight q u v w.
Proof.
  induction 1 as [u|u v t e w Hp IH Hin Hj]; [constructor|].
  econstructor; [exact IH| |exact Hj]. rewrite q_edges; apply in_or_app; auto.
Qed.

Lemma wired c : In c container -> In (nv, c, 0%Z) (edges q) /\ joins (nv, c, 0%Z) nv c.
Proof.
  intros Hin; split; [|left; auto].
  rewrite q_edges; apply in_or_app; right. apply in_map_iff; eauto.
Qed.

Lemma sample_bound c v w :
  In c container -> path_weight x c v w -> (D v <= w)%Z.
Proof.
  intros Hin Hp. destruct (wired c Hin) as [He Hj].
  pose proof (@check_relaxed _ _ _ _ Hcheck _ _ _ He Hj) as H0.
  pose proof (@check_lower_bound _ _ _ _ Hcheck _ _ _ (path_lift c v w Hp)) as H1.
  destruct (@check_source _ _ _ _ Hcheck) as [Hs _]. simpl in *. vlia.
Qed.

Lemma root_child v :
  v < nv -> P v = nv -> In v container /\ D v = 0%Z.
Proof.
  intros Hv HP.
  destruct (@check_tree _ _ _ _ Hcheck v) as (e & Hin & Hj & Hd);
    [rewrite q_num_vertices; vlia|vlia|].
  destruct (@check_source _ _ _ _ Hcheck) as [Hs _].
  rewrite HP in Hj, Hd.
  destruct (q_edge_cases e Hin) as [(_ & H1 & H2)|(c & Hcin & ->)].
  - destruct Hj as [[? ?]|[? ?]]; vlia.
  - unfold joins, e_src, e_dst, e_weight in Hj, Hd; simpl in Hj, Hd.
    destruct Hj as [[_ E]|[E _]]; [|vlia].
    subst c. split; [exact Hcin|]. vlia.
Qed.

Lemma tree_step v :
  v < nv -> P v <> nv ->
  P v < nv /\ exists e, In e (edges x) /\ joins e (P v) v
                        /\ D v = (D (P v) + e_weight e)%Z.
Proof.
  intros Hv HP.
  destruct (@check_tree _ _ _ _ Hcheck v) as (e & Hin & Hj & Hd);
    [rewrite q_num_vertices; vlia|vlia|].
  destruct (q_edge_cases e Hin) as [(Hx & H1 & H2)|(c & Hcin & ->)].
  - split; [destruct Hj as [[? ?]|[? ?]]; vlia|]. exists e; auto.
  - exfalso. unfold joins, e_src, e_dst in Hj; simpl in Hj.
    destruct Hj as [[E _]|[E _]]; vlia.
Qed.

Lemma tree_path k : forall v,
  v < nv -> (forall i, i <= k -> climb p i v <> nv) ->
  climb p k v < nv /\ path_weight x (climb p k v) v (D v - D (climb p k v))%Z.
Proof.
  induction k as [|k IH]; intros v Hv Hclimb; simpl.
  - split; [exact Hv|]. replace (D v - D v)%Z with 0%Z by vlia. constructor.
  - assert (HP : P v <> nv) by (apply (Hclimb 1); vlia).
    destruct (tree_step v Hv HP) as (HPv & e & Hin & Hj & Hd).
    destruct (IH (P v) HPv) as (Hr & Hpath).
    { intros i Hi. apply (Hclimb (S i)). vlia. }
    split; [exact Hr|].
    replace (D v - D (climb p k (P v)))%Z
      with ((D (P v) - D (climb p k (P v))) + e_weight e)%Z by (simpl in *; vlia).
    econstructor; eassumption.
Qed.

Lemma walk_finds k : forall a fuel,
  k <= fuel -> climb p (S k) a = nv -> a <> nv ->
  exists j, j <= k
            /\ walk fuel p nv a (P a) = Some (climb p j a)
            /\ P (climb p j a) = nv
            /\ forall i, i <= j -> climb p i a <> nv.
Proof.
  induction k as [|k IH]; intros a fuel Hf Hk Ha.
  - simpl in Hk. exists 0; simpl. rewrite Hk, walk_done.
    repeat split; auto. intros i Hi; replace i with 0 by vlia; exact Ha.
  - destruct (Nat.eq_dec (P a) nv) as [E|E].
    + exists 0; simpl. rewrite E, walk_done.
      repeat split; auto; [vlia|]. intros i Hi; replace i with 0 by vlia; exact Ha.
    + destruct fuel as [|fuel]; [vlia|].
      destruct (IH (P a) fuel) as (j & Hj & Hw & HPj & Hne); [vlia|exact Hk|exact E|].
      exists (S j). split; [vlia|]. split; [|split].
      * cbn [walk]. rewrite (proj2 (Nat.eqb_neq _ _) E). exact Hw.
      * exact HPj.
      * intros [|i] Hi; [exact Ha|]. apply Hne; vlia.
Qed.

Lemma resolve_assigned fuel v :
  nv <= fuel -> v < nv ->
  exists ind, resolve fuel p nv (pid2ind_fill 0 container []) v = Returned ind
              /\ assigned_ v ind.
Proof.
  intros Hfuel Hv. unfold resolve.
  destruct (@check_source _ _ _ _ Hcheck) as [_ HPs].
  destruct (Nat.eq_dec (P v) nv) as [E|E].
  - rewrite E, HPs, walk_done.
    rewrite pid2ind_find_stranger.
    2:{ intros Hin. rewrite Forall_forall in Hc. specialize (Hc _ Hin). vlia. }
    destruct (root_child v Hv E) as [Hin Hd0].
    destruct (pid2ind_find_member container v Hin) as (ind & -> & Hn).
    exists ind; split; [reflexivity|]. exists v; repeat split; auto.
    simpl in Hd0. rewrite Hd0. constructor.
  - destruct (tree_step v Hv E) as (HPv & _).
    destruct (@check_rooted _ _ _ _ Hcheck v) as (k & Hk & Hclimb);
      [rewrite q_num_vertices; vlia|].
    rewrite q_num_vertices in Hk.
    destruct k as [|[|k]]; simpl in Hclimb; [vlia|contradiction|].
    destruct (walk_finds k (P v) fuel) as (j & Hj & Hw & HPj & Hne);
      [vlia|exact Hclimb|vlia|].
    rewrite Hw.
    destruct (tree_path (S j) v Hv) as (Hr & Hpath).
    { intros [|i] Hi; simpl; [vlia|]. apply Hne; vlia. }
    simpl in Hr, Hpath.
    destruct (root_child _ Hr HPj) as [Hin Hd0].
    destruct (pid2ind_find_member container _ Hin) as (ind & -> & Hn).
    exists ind; split; [reflexivity|]. exists (climb p j (P v)).
    split; [exact Hn|split].
    + intros Hvin. exfalso. apply E.
      destruct (wired v Hvin) as [He Hjn].
      apply (@check_source_first _ _ _ _ Hcheck _ _ He Hjn). reflexivity.
    + simpl in Hd0. rewrite Hd0, Z.sub_0_r in Hpath. exact Hpath.
Qed.

Lemma resolve_all_assigned fuel todo :
  nv <= fuel -> Forall (fun v => v < nv) todo ->
  exists l, resolve_all fuel p nv (pid2ind_fill 0 container []) todo = Returned l
            /\ Forall2 assigned_ todo l.
Proof.
  intros Hfuel; induction 1 as [|v todo Hv _ IH]; simpl.
  - exists []; split; [reflexivity|constructor].
  - destruct (resolve_assigned fuel v Hfuel Hv) as (ind & -> & Ha).
    destruct IH as (l & -> & Hl). exists (ind :: l); split; [reflexivity|].
    constructor; assumption.
Qed.

End Assignment.

Lemma Forall2_seq_from (R : Vertex -> nat -> Prop) n : forall start (l : list nat),
  Forall2 R (seq start n) l ->
  forall v, v < n -> R (start + v) (nth v l 0).
Proof.
  induction n as [|n IH]; intros start l H v Hv; [lia|].
  simpl in H. inversion H as [|? a ? l' Ha Hl]; subst.
  destruct v as [|v]; simpl.
  - rewrite Nat.add_0_r. exact Ha.
  - replace (start + S v) with (S start + v) by lia.
    apply IH; [exact Hl|lia].
Qed.

Lemma Forall2_seq_nth (R : Vertex -> nat -> Prop) n (l : list nat) :
  Forall2 R (seq 0 n) l ->
  length l = n /\ forall v, v < n -> R v (nth v l 0).
Proof.
  intros H. split.
  - apply Forall2_length in H. rewrite length_seq in H. auto.
  - intros v Hv. apply (Forall2_seq_from R n 0 l H v Hv).
Qed.

(** C2.  On a well-formed graph, with a container of vertices of the
    graph, whenever the shortest-path routine's answer on the wired
    graph passes the check (for a correct routine: whenever every vertex
    is reached, that is, the graph is connected and the container is not
    empty; the check also forces the weights to be non-negative),
    [get_costs] returns, given enough fuel for the walks, one cost and
    one assignment per vertex; the assignment of [v] is the index of a
    sample member [r], [v] itself when [v] is a sample member; and the
    cost of [v] is the shortest-path distance between [r] and [v], below
    the weight of every path from any sample member to [v]. *)
Theorem get_costs_nearest_sample
        (dijkstra_shortest_paths : Graph -> Vertex -> list edge_cost * list Vertex)
        (x : Graph) (container : list Vertex) (fuel : nat)
        (Hwf : wf_graph x)
        (Hc : Forall (fun v => v < num_vertices x) container)
        (Hfuel : num_vertices x <= fuel)
        (Hcheck : sssp_check
                    (gc_query x container) (num_vertices x)
                    (fst (dijkstra_shortest_paths (gc_query x container) (num_vertices x)))
                    (snd (dijkstra_shortest_paths (gc_query x container) (num_vertices x)))
                  = true) :
  exists costs assignments,
    get_costs dijkstra_shortest_paths fuel x container
    = (x, Returned (costs, assignments))
    /\ length costs = num_vertices x
    /\ length assignments = num_vertices x
    /\ forall v, v < num_vertices x ->
         exists r,
           nth_error container (nth v assignments 0) = Some r
           /\ (In v container -> r = v)
           /\ is_distance x r v (nth v costs 0%Z)
           /\ forall c w, In c container -> path_weight x c v w ->
                          (nth v costs 0 <= w)%Z.
Proof.
  destruct (dijkstra_shortest_paths (gc_query x container) (num_vertices x))
    as [d p] eqn:E. simpl in Hcheck.
  destruct (resolve_all_assigned x container d p Hwf Hc Hcheck fuel
                                 (seq 0 (num_vertices x)) Hfuel)
    as (l & Hl & Hall).
  { apply Forall_forall; intros v Hv; apply in_seq in Hv; lia. }
  destruct (Forall2_seq_nth _ _ _ Hall) as [Hlen Hnth].
  exists (firstn (num_vertices x) d), l.
  split; [|split; [|split]].
  - unfold get_costs. rewrite E, Hl. f_equal.
    apply release_scoped; [exact Hwf|apply gc_query_scoped, Hc].
  - rewrite length_firstn.
    destruct (@check_lengths _ _ _ _ Hcheck) as [Hd _].
    rewrite Hd, (q_num_vertices x container Hc). lia.
  - exact Hlen.
  - intros v Hv. destruct (Hnth v Hv) as (r & Hr & Hself & Hpath).
    rewrite nth_firstn, (proj2 (Nat.ltb_lt _ _) Hv).
    exists r. split; [exact Hr|split; [exact Hself|split]].
    + split; [exact Hpath|]. intros w Hw.
      apply (sample_bound x container d p Hcheck r v w);
        [eapply nth_error_In; eassumption|exact Hw].
    + intros c w. apply (sample_bound x container d p Hcheck).
Qed.

Lemma get_costs_nearest_sample_witness :
  let x := Reference.path_graph 5 1%Z in
  exists costs assignments,
    Run.get_costs 5 x [1; 3] = (x, Returned (costs, assignments))
    /\ length costs = 5 /\ length assignments = 5.
Proof.
  intros x.
  destruct (@get_costs_nearest_sample Reference.dijkstra_shortest_paths x [1; 3] 5
              path5_wf ltac:(repeat constructor) ltac:(simpl; lia)
              ltac:(vm_compute; reflexivity))
    as (costs & assignments & H & Hlc & Hla & _).
  exists costs, assignments. split; [exact H|split; [exact Hlc|exact Hla]].
Defined.

Example get_costs_path5 :
  Run.get_costs 5 (Reference.path_graph 5 1%Z) [1; 3]
  = (Reference.path_graph 5 1%Z,
     Returned ([1%Z; 0%Z; 1%Z; 0%Z; 1%Z], [0; 0; 0; 1; 1])).
Proof. vm_compute. reflexivity. Qed.

(** ** The scenarios of the design *)

(** Path [0 - 1 - 2 - 3 - 4] with unit weights, one round of one sample:
    when the draw is vertex [2] the cost is [2 + 1 + 1 + 2]. *)
Example path_scenario :
  snd (Run.thorup_d (Reference.path_graph 5 1%Z) 0%N 1 1) = Returned ([2], 6%Z).
Proof. vm_compute. reflexivity. Qed.

(** Star with centre [0] and five leaves: the sample [[0]] costs [5] in
    total and every vertex is assigned to index [0]. *)
Example star_scenario :
  snd (Run.get_costs 6 (Reference.star_graph 6 1%Z) [0])
  = Returned ([0%Z; 1%Z; 1%Z; 1%Z; 1%Z; 1%Z], [0; 0; 0; 0; 0; 0]).
Proof. vm_compute. reflexivity. Qed.

(** * Further properties *)

(** ** The output of sample_from_graph *)

Lemma sfg_loop_growth (RNG : Type) (rng_next : RNG -> N * RNG)
      (dijkstra_shortest_paths : Graph -> Vertex -> list edge_cost * list Vertex)
      (s synth : nat) (it : nat) : forall st : sfg_state RNG,
  exists new rounds,
    sfg_F (sfg_loop rng_next dijkstra_shortest_paths it s synth st) = sfg_F st ++ new
    /\ length new = s * rounds
    /\ rounds <= it /\ rounds <= length (sfg_R st)
    /\ Forall (fun v => In v (sfg_R st)) new.
Proof.
  induction it as [|it IH]; intros st; simpl.
  - exists [], 0. rewrite app_nil_r. repeat split; auto; lia.
  - destruct (sfg_R st) as [|h t] eqn:ER.
    + exists [], 0. rewrite app_nil_r. repeat split; auto; simpl; lia.
    + assert (HR : sfg_R st <> []) by (rewrite ER; discriminate).
      destruct (IH (sfg_round rng_next dijkstra_shortest_paths s synth st))
        as (new & r & HF & Hlen & Hr1 & Hr2 & Hin).
      pose proof (@sfg_round_R_lt RNG rng_next dijkstra_shortest_paths s synth st HR)
        as Hlt.
      rewrite sfg_round_F in HF.
      rewrite (@draw_samples_nonempty RNG rng_next s (sfg_R st) (sfg_F st)
                                      (sfg_rng st) HR) in HF.
      exists (draws_with_replacement rng_next s (sfg_R st) (sfg_rng st) ++ new), (S r).
      rewrite <- ER. split; [|split; [|split; [|split]]].
      * rewrite HF, app_assoc. reflexivity.
      * rewrite length_app, draws_with_replacement_length, Hlen. lia.
      * lia.
      * lia.
      * apply Forall_app; split.
        -- apply draws_with_replacement_in; exact HR.
        -- eapply Forall_impl; [|exact Hin]. intros v Hv.
           eapply sfg_round_R_incl; exact Hv.
Qed.

(** X1.  [sample_from_graph] appends [samples_per_round] handles per
    round it runs, and it runs at most [iterations] rounds and at most one
    per vertex (each round prunes its pivot): the output is the container
    followed by [samples_per_round * rounds] handles, all of them vertices
    of the graph.  With no round allowed, or on the empty graph, the
    container comes back as it was. *)
Theorem sample_from_graph_size
        (RNG : Type) (rng_seed : N -> RNG) (rng_next : RNG -> N * RNG)
        (dijkstra_shortest_paths : Graph -> Vertex -> list edge_cost * list Vertex)
        (x : Graph) (samples_per_round iterations : nat)
        (container : list Vertex) (seed : N) :
  exists new rounds,
    snd (sample_from_graph rng_seed rng_next dijkstra_shortest_paths
                           x samples_per_round iterations container seed)
    = container ++ new
    /\ length new = samples_per_round * rounds
    /\ rounds <= iterations
    /\ rounds <= num_vertices x
    /\ Forall (fun v => v < num_vertices x) new.
Proof.
  unfold sample_from_graph; simpl.
  destruct (sfg_loop_growth RNG rng_next dijkstra_shortest_paths samples_per_round
              (num_vertices x) iterations
              (mkSfg (fst (add_vertex x)) (vertices x) container (rng_seed seed)))
    as (new & r & HF & Hlen & Hr1 & Hr2 & Hin).
  simpl in *. exists new, r. unfold vertices in *. rewrite length_seq in Hr2.
  repeat split; auto.
  eapply Forall_impl; [|exact Hin]. intros v Hv. apply in_seq in Hv. lia.
Qed.

(** ** The index map and the assignments of get_costs *)

Lemma pid2ind_fill_last (container : list Vertex) : forall k m v i,
  pid2ind_find v (pid2ind_fill k container m) = Some i <->
  (k <= i /\ nth_error container (i - k) = Some v
   /\ forall j, i - k < j -> nth_error container j <> Some v)
  \/ (~ In v container /\ pid2ind_find v m = Some i).
Proof.
  induction container as [|h t IH]; intros k m v i.
  - simpl. split.
    + intros H; right; auto.
    + intros [(_ & H & _)|(_ & H)]; [destruct (i - k); discriminate|exact H].
  - cbn [pid2ind_fill]. rewrite IH. cbn [pid2ind_find]. split.
    + intros [(Hk & Hn & Hlast)|(Hnin & Hf)].
      * left. split; [lia|].
        replace (i - k) with (S (i - S k)) by lia. split; [exact Hn|].
        intros [|j] Hj; [lia|]. apply Hlast; lia.
      * destruct (Nat.eqb_spec h v) as [->|Hne].
        -- inversion Hf; subst i. left. rewrite Nat.sub_diag.
           split; [lia|split; [reflexivity|]].
           intros [|j] Hj; [lia|]. simpl. intros E. apply Hnin.
           eapply nth_error_In; exact E.
        -- right. split; [|exact Hf]. simpl. intros [E|E]; auto.
    + intros [(Hk & Hn & Hlast)|(Hnin & Hf)].
      * destruct (Nat.eq_dec i k) as [->|Hik].
        -- rewrite Nat.sub_diag in Hn, Hlast. simpl in Hn. inversion Hn; subst h.
           right. rewrite Nat.eqb_refl. split; [|reflexivity].
           intros Hin. apply In_nth_error in Hin. destruct Hin as (j & Hj).
           apply (Hlast (S j)); [lia|exact Hj].
        -- left. split; [lia|].
           replace (i - k) with (S (i - S k)) in Hn, Hlast by lia.
           split; [exact Hn|]. intros j Hj. apply (Hlast (S j)). lia.
      * right. simpl in Hnin. split; [tauto|].
        destruct (Nat.eqb_spec h v) as [E|_]; [tauto|exact Hf].
Qed.

(** X2.  The index map built from the container sends a handle to the
    last position at which the container holds it, and finds nothing for
    a handle the container does not hold: an insertion on a key already
    present overwrites. *)
Theorem pid2ind_last_position (container : list Vertex) (v : Vertex) :
  (forall i,
      pid2ind_find v (pid2ind_fill 0 container []) = Some i <->
      nth_error container i = Some v
      /\ forall j, i < j -> nth_error container j <> Some v)
  /\ (pid2ind_find v (pid2ind_fill 0 container []) = None <-> ~ In v container).
Proof.
  split.
  - intros i. rewrite pid2ind_fill_last, Nat.sub_0_r. simpl. split.
    + intros [(_ & H1 & H2)|(_ & H)]; [auto|discriminate].
    + intros [H1 H2]. left. split; [lia|auto].
  - split.
    + intros HN Hin. destruct (pid2ind_find_member container v Hin) as (i & Hi & _).
      congruence.
    + apply pid2ind_find_stranger.
Qed.

Lemma resolve_in_range fuel p synth (container : list Vertex) i a :
  resolve fuel p synth (pid2ind_fill 0 container []) i = Returned a ->
  a < length container.
Proof.
  unfold resolve.
  destruct (walk fuel p synth (nth i p 0) (nth (nth i p 0) p 0)) as [r|];
    [|discriminate].
  assert (Hfind : forall u idx,
             pid2ind_find u (pid2ind_fill 0 container []) = Some idx ->
             idx < length container).
  { intros u idx H. apply (proj1 (pid2ind_last_position container u)) in H.
    destruct H as [H _]. apply nth_error_Some. congruence. }
  destruct (pid2ind_find r (pid2ind_fill 0 container [])) as [idx|] eqn:E1.
  - intros E; inversion E; subst. eapply Hfind; eassumption.
  - destruct (pid2ind_find i (pid2ind_fill 0 container [])) as [idx|] eqn:E2;
      [|discriminate].
    intros E; inversion E; subst. eapply Hfind; eassumption.
Qed.

Lemma resolve_all_in_range fuel p synth (container : list Vertex) todo : forall l,
  resolve_all fuel p synth (pid2ind_fill 0 container []) todo = Returned l ->
  length l = length todo /\ Forall (fun a => a < length container) l.
Proof.
  induction todo as [|i todo IH]; intros l; simpl.
  - intros E; inversion E; auto.
  - destruct (resolve fuel p synth (pid2ind_fill 0 container []) i) as [a|e|] eqn:Er;
      try discriminate.
    destruct (resolve_all fuel p synth (pid2ind_fill 0 container []) todo)
      as [l'|e|]; try discriminate.
    intros E; inversion E; subst. destruct (IH l' eq_refl) as [Hlen Hall].
    split; [simpl; congruence|]. constructor; [|exact Hall].
    eapply resolve_in_range; exact Er.
Qed.

Lemma get_costs_returned_shape
      (dijkstra_shortest_paths : Graph -> Vertex -> list edge_cost * list Vertex)
      (fuel : nat) (x : Graph) (container : list Vertex)
      (costs : list edge_cost) (assignments : list nat) :
  snd (get_costs dijkstra_shortest_paths fuel x container)
  = Returned (costs, assignments) ->
  length assignments = num_vertices x
  /\ Forall (fun a => a < length container) assignments.
Proof.
  unfold get_costs.
  destruct (dijkstra_shortest_paths (gc_query x container) (num_vertices x))
    as [c p].
  destruct (resolve_all fuel p (num_vertices x) (pid2ind_fill 0 container [])
                        (seq 0 (num_vertices x))) as [l|e|] eqn:E; simpl;
    try discriminate.
  intros H; inversion H; subst.
  destruct (resolve_all_in_range _ _ _ _ _ _ E) as [Hlen Hall].
  rewrite length_seq in Hlen. auto.
Qed.

(** X3.  Whatever the shortest-path routine answered, a call of
    [get_costs] that returns gives one assignment per vertex of the graph,
    each an index into the container. *)
Theorem get_costs_assignments_in_range
        (dijkstra_shortest_paths : Graph -> Vertex -> list edge_cost * list Vertex)
        (fuel : nat) (x : Graph) (container : list Vertex)
        (costs : list edge_cost) (assignments : list nat)
        (H : snd (get_costs dijkstra_shortest_paths fuel x container)
             = Returned (costs, assignments)) :
  length assignments = num_vertices x
  /\ Forall (fun a => a < length container) assignments.
Proof. exact (get_costs_returned_shape _ _ _ _ _ _ H). Qed.

Lemma get_costs_assignments_in_range_witness :
  length [0; 0; 0; 1; 1] = 5 /\ Forall (fun a => a < 2) [0; 0; 0; 1; 1].
Proof.
  exact (@get_costs_assignments_in_range
           Reference.dijkstra_shortest_paths 5 (Reference.path_graph 5 1%Z) [1; 3]
           [1%Z; 0%Z; 1%Z; 0%Z; 1%Z] [0; 0; 0; 1; 1]
           ltac:(vm_compute; reflexivity)).
Defined.

Lemma resolve_all_blocked fuel p synth pid2ind v todo :
  In v todo ->
  (forall a, resolve fuel p synth pid2ind v <> Returned a) ->
  forall l, resolve_all fuel p synth pid2ind todo <> Returned l.
Proof.
  intros Hin Hv. induction todo as [|i todo IH]; [destruct Hin|].
  intros l. simpl.
  destruct (resolve fuel p synth pid2ind i) as [a|e|] eqn:Er; try discriminate.
  destruct Hin as [->|Hin]; [exfalso; eapply Hv; exact Er|].
  destruct (resolve_all fuel p synth pid2ind todo) as [l'|e|] eqn:Ea;
    try discriminate.
  exfalso. eapply IH; [exact Hin|reflexivity].
Qed.

Lemma get_costs_blocked
      (dijkstra_shortest_paths : Graph -> Vertex -> list edge_cost * list Vertex)
      (fuel : nat) (x : Graph) (container : list Vertex) (v : Vertex) :
  v < num_vertices x ->
  (forall a,
      resolve fuel (snd (dijkstra_shortest_paths (gc_query x container) (num_vertices x)))
              (num_vertices x) (pid2ind_fill 0 container []) v <> Returned a) ->
  is_returned (snd (get_costs dijkstra_shortest_paths fuel x container)) = false.
Proof.
  intros Hv Hres. unfold get_costs.
  destruct (dijkstra_shortest_paths (gc_query x container) (num_vertices x))
    as [c p]. simpl in Hres.
  destruct (resolve_all fuel p (num_vertices x) (pid2ind_fill 0 container [])
                        (seq 0 (num_vertices x))) as [l|e|] eqn:E; try reflexivity.
  exfalso. eapply resolve_all_blocked; [|exact Hres|exact E].
  apply in_seq. lia.
Qed.

Lemma get_costs_nothing_to_find
      (dijkstra_shortest_paths : Graph -> Vertex -> list edge_cost * list Vertex)
      (fuel : nat) (x : Graph) :
  0 < num_vertices x ->
  is_returned (snd (get_costs dijkstra_shortest_paths fuel x [])) = false.
Proof.
  intros Hn. apply (get_costs_blocked dijkstra_shortest_paths fuel x [] 0 Hn).
  intros a. unfold resolve.
  destruct (walk fuel _ _ _ _); simpl; discriminate.
Qed.

(** X4.  With an empty container [get_costs] cannot return on a graph
    that has a vertex: no walk can end at a sample member, so the call
    throws at the lookup or its walk never ends. *)
Theorem get_costs_empty_container
        (dijkstra_shortest_paths : Graph -> Vertex -> list edge_cost * list Vertex)
        (fuel : nat) (x : Graph) (Hn : 0 < num_vertices x) :
  is_returned (snd (get_costs dijkstra_shortest_paths fuel x [])) = false.
Proof.
  exact (get_costs_nothing_to_find dijkstra_shortest_paths fuel x Hn).
Qed.

Lemma get_costs_empty_container_witness :
  is_returned (snd (Run.get_costs 9 (Reference.path_graph 5 1%Z) [])) = false.
Proof.
  exact (@get_costs_empty_container Reference.dijkstra_shortest_paths 9
           (Reference.path_graph 5 1%Z) ltac:(simpl; lia)).
Defined.

(** X5.  If the shortest-path routine leaves some vertex of the graph as
    its own predecessor (as boost does for a vertex it does not reach),
    [get_costs] does not return, whatever the fuel: the walk of that
    vertex has no end, unless an earlier vertex already stopped the call. *)
Theorem get_costs_self_predecessor
        (dijkstra_shortest_paths : Graph -> Vertex -> list edge_cost * list Vertex)
        (fuel : nat) (x : Graph) (container : list Vertex) (v : Vertex)
        (Hv : v < num_vertices x)
        (Hp : nth v (snd (dijkstra_shortest_paths (gc_query x container)
                                                  (num_vertices x))) 0 = v) :
  is_returned (snd (get_costs dijkstra_shortest_paths fuel x container)) = false.
Proof.
  apply (get_costs_blocked dijkstra_shortest_paths fuel x container v Hv).
  intros a. unfold resolve. rewrite Hp, Hp.
  rewrite walk_stuck; [discriminate|exact Hp|lia].
Qed.

Lemma get_costs_self_predecessor_witness :
  is_returned (snd (Run.get_costs 9 (mkGraph 3 [(0, 1, 1%Z)]) [0])) = false.
Proof.
  exact (@get_costs_self_predecessor Reference.dijkstra_shortest_paths 9
           (mkGraph 3 [(0, 1, 1%Z)]) [0] 2 ltac:(simpl; lia)
           ltac:(vm_compute; reflexivity)).
Defined.

(** ** thorup_d on small pools, and the trials *)

Section SmallPools.

Variable RNG : Type.
Variable rng_seed : N -> RNG.
Variable rng_next : RNG -> N * RNG.
Variable dijkstra_shortest_paths : Graph -> Vertex -> list edge_cost * list Vertex.
Variable assert_connected : Graph -> bool.
Variable uninitialised : nat -> list edge_cost.

Local Abbreviation td_run_ := (td_run rng_next dijkstra_shortest_paths uninitialised).
Local Abbreviation thorup_d_ :=
  (thorup_d rng_next dijkstra_shortest_paths assert_connected uninitialised).
Local Abbreviation run_trials_ :=
  (run_trials rng_next dijkstra_shortest_paths assert_connected uninitialised).

Lemma td_loop_step m n synth (st : td_state RNG) :
  td_R st <> [] ->
  td_loop rng_next dijkstra_shortest_paths (S m) n synth st
  = td_loop rng_next dijkstra_shortest_paths m n synth
            (td_round rng_next dijkstra_shortest_paths n synth st).
Proof. intros HR. simpl. destruct (td_R st); [congruence|reflexivity]. Qed.

Lemma td_loop_done m n synth (st : td_state RNG) :
  td_R st = [] -> td_loop rng_next dijkstra_shortest_paths m n synth st = st.
Proof. intros HR. destruct m; simpl; [reflexivity|]. rewrite HR. reflexivity. Qed.

(** A pool no larger than [nperround] is taken whole in the first round,
    without a draw. *)
Lemma td_run_takes_all x rng n m :
  0 < num_vertices x -> 0 < m -> num_vertices x <= n ->
  td_F (td_run_ x rng n m) = vertices x
  /\ td_rng (td_run_ x rng n m) = rng
  /\ td_graph (td_run_ x rng n m)
     = wire_to (num_vertices x) (vertices x) (fst (add_vertex x)).
Proof.
  intros Hx Hm Hn. unfold td_run.
  cbn [ScopedSyntheticVertex.acquire add_vertex].
  destruct m as [|m]; [lia|].
  assert (HR : vertices x <> []).
  { unfold vertices. destruct (num_vertices x); [lia|discriminate]. }
  assert (Hlt : (n <? length (vertices x)) = false).
  { unfold vertices. rewrite length_seq. apply Nat.ltb_ge. exact Hn. }
  rewrite td_loop_step by exact HR.
  unfold td_round, td_sample. cbn [td_R td_F td_graph td_rng td_distances].
  rewrite Hlt. unfold td_search. cbn [td_R td_F td_graph td_rng td_distances].
  rewrite td_loop_done by reflexivity.
  cbn [td_R td_F td_graph td_rng td_distances app]. auto.
Qed.

(** With [nperround = 0] no round adds to [F]. *)
Lemma td_loop_no_sampling m synth : forall st : td_state RNG,
  td_F (td_loop rng_next dijkstra_shortest_paths m 0 synth st) = td_F st.
Proof.
  induction m as [|m IH]; intros st; simpl; [reflexivity|].
  destruct (td_R st) as [|h t] eqn:ER; [reflexivity|].
  rewrite IH. unfold td_round, td_sample. rewrite ER. simpl.
  destruct (td_R _); [reflexivity|].
  match goal with |- td_F (td_prune _ ?s) = _ =>
    destruct (td_prune_keeps rng_next s) as (_ & -> & _) end.
  reflexivity.
Qed.

Lemma td_run_no_sampling x rng n m :
  n = 0 \/ m = 0 -> td_F (td_run_ x rng n m) = [].
Proof.
  intros [->| ->]; unfold td_run; simpl.
  - rewrite td_loop_no_sampling. reflexivity.
  - reflexivity.
Qed.

Lemma thorup_d_returned x rng n m x' rng' s :
  thorup_d_ x rng n m = (x', rng', Returned s) ->
  fst s = td_F (td_run_ x rng n m).
Proof.
  unfold thorup_d. destruct (assert_connected x); simpl; [|discriminate].
  destruct (assert_connected (td_graph (td_run_ x rng n m))); simpl;
    [|discriminate].
  intros E; inversion E; reflexivity.
Qed.

(** Every solution of every trial satisfies what each call of [thorup_d]
    on [x] guarantees; the graph is handed on unchanged. *)
Lemma run_trials_all (Q : solution -> Prop) x n m :
  wf_graph x ->
  (forall rng x' rng' s, thorup_d_ x rng n m = (x', rng', Returned s) -> Q s) ->
  forall count rng,
    fst (fst (run_trials_ count x rng n m)) = x
    /\ forall l, snd (run_trials_ count x rng n m) = Returned l -> Forall Q l.
Proof.
  intros Hwf HQ. induction count as [|c IH]; intros rng; simpl.
  - split; [reflexivity|]. intros l E; inversion E; constructor.
  - pose proof (@thorup_d_restores RNG rng_next dijkstra_shortest_paths
                  assert_connected uninitialised x rng n m Hwf) as Hr.
    destruct (thorup_d_ x rng n m) as [[x1 rng1] [s|e|]] eqn:Et; simpl in Hr;
      subst x1; simpl; try (split; [reflexivity|discriminate]).
    destruct (IH rng1) as [Hg Hall].
    destruct (run_trials_ c x rng1 n m) as [[x2 rng2] [l2|e|]]; simpl in *;
      subst x2; (split; [reflexivity|]); try discriminate.
    intros l E; inversion E; subst. constructor; [eapply HQ; exact Et|].
    apply Hall; reflexivity.
Qed.

(** What the selector returns, through [best_of_trials]: the graph is the
    input again on every exit, and a returned sample is the sample of one
    of the trials. *)
Lemma best_of_trials_shape (Q : list Vertex -> Prop) fuel x k seed num_iter :
  wf_graph x ->
  (forall rng x' rng' s,
      thorup_d_ x rng (samples_per_round k (num_vertices x))
                (max_rounds (num_vertices x)) = (x', rng', Returned s) ->
      Q (fst s) /\ Forall (fun v => v < num_vertices x) (fst s)) ->
  let r := thorup_sample_mincost rng_seed rng_next dijkstra_shortest_paths
                                 assert_connected uninitialised
                                 fuel x k seed num_iter in
  (is_exit (snd r) = true -> fst r = x)
  /\ forall F a,
      snd r = Returned (F, a) ->
      Q F /\ Forall (fun v => v < num_vertices x) F
      /\ exists costs, snd (get_costs dijkstra_shortest_paths fuel x F)
                       = Returned (costs, a).
Proof.
  intros Hwf HQ. cbv zeta.
  rewrite thorup_sample_mincost_best_of_trials. unfold best_of_trials.
  destruct (run_trials_all
              (fun s => Q (fst s) /\ Forall (fun v => v < num_vertices x) (fst s))
              x (samples_per_round k (num_vertices x)) (max_rounds (num_vertices x))
              Hwf HQ (Nat.max 1 num_iter) (rng_seed seed)) as [Hg Hall].
  pose proof (run_trials_length rng_next dijkstra_shortest_paths assert_connected
                uninitialised (Nat.max 1 num_iter) x (rng_seed seed)
                (samples_per_round k (num_vertices x))
                (max_rounds (num_vertices x))) as Hlen.
  destruct (run_trials_ (Nat.max 1 num_iter) x (rng_seed seed)
                        (samples_per_round k (num_vertices x))
                        (max_rounds (num_vertices x)))
    as [[x1 rng1] [l|e|]]; simpl in Hg; subst x1; simpl;
    try (split; [reflexivity|discriminate]);
    try (split; [discriminate|discriminate]).
  destruct l as [|s l].
  { specialize (Hlen x rng1 [] eq_refl). destruct num_iter; simpl in Hlen; discriminate. }
  specialize (Hall _ eq_refl). rewrite Forall_forall in Hall.
  destruct (lowest_cost_spec s l) as [Hin _].
  destruct (Hall _ Hin) as [HQs Hrange].
  pose proof (@get_costs_restores dijkstra_shortest_paths fuel x
                (fst (lowest_cost s l)) Hwf Hrange) as Hrest.
  destruct (get_costs dijkstra_shortest_paths fuel x (fst (lowest_cost s l)))
    as [x2 [[costs a]|e|]] eqn:Eg; simpl in *.
  - split; [intros _; apply Hrest; reflexivity|].
    intros F a' E; inversion E; subst. rewrite Eg. simpl. eauto.
  - split; [intros _; apply Hrest; reflexivity|discriminate].
  - split; discriminate.
Qed.

End SmallPools.

Lemma samples_per_round_mono k n :
  1 <= k -> 1 <= n -> samples_per_round 1 n <= samples_per_round k n.
Proof.
  intros Hk Hn. unfold samples_per_round.
  apply Z2Nat.inj_le; try apply Z.log2_up_nonneg.
  apply Z.log2_up_le_mono. apply Z.pow_le_mono_r; lia.
Qed.

Lemma samples_per_round_covers k n :
  1 <= k -> 2 <= n -> n <= 357 -> n <= samples_per_round k n.
Proof.
  intros Hk Hlo Hhi.
  assert (H : forallb (fun i => i <=? samples_per_round 1 i) (seq 2 356) = true)
    by (vm_compute; reflexivity).
  rewrite forallb_forall in H.
  assert (Hin : In n (seq 2 356)) by (apply in_seq; lia).
  specialize (H n Hin). apply Nat.leb_le in H.
  pose proof (samples_per_round_mono k n Hk ltac:(lia)). lia.
Qed.

Lemma samples_per_round_zero n : samples_per_round 0 n = 0.
Proof.
  unfold samples_per_round. rewrite Nat.mul_0_r. reflexivity.
Qed.



(** X7.  On a graph with 2 to 357 vertices and [k >= 1] the number of
    samples per round, [ceil(42 k log2 n)], is at least the number of
    vertices, so every trial takes the whole pool: a sample returned by
    [thorup_sample_mincost] is the whole vertex set, in vertex order. *)
Theorem thorup_sample_mincost_small_graph
        (RNG : Type) (rng_seed : N -> RNG) (rng_next : RNG -> N * RNG)
        (dijkstra_shortest_paths : Graph -> Vertex -> list edge_cost * list Vertex)
        (assert_connected : Graph -> bool) (uninitialised : nat -> list edge_cost)
        (fuel : nat) (x : Graph) (k : nat) (seed : N) (num_iter : nat)
        (F : list Vertex) (a : list nat)
        (Hwf : wf_graph x) (Hk : 1 <= k)
        (Hlo : 2 <= num_vertices x) (Hhi : num_vertices x <= 357)
        (H : snd (thorup_sample_mincost rng_seed rng_next dijkstra_shortest_paths
                                        assert_connected uninitialised
                                        fuel x k seed num_iter)
             = Returned (F, a)) :
  F = vertices x.
Proof.
  destruct (best_of_trials_shape RNG rng_seed rng_next dijkstra_shortest_paths
              assert_connected uninitialised (fun F => F = vertices x)
              fuel x k seed num_iter Hwf) as [_ Hret].
  - intros rng x' rng' s Hs.
    apply thorup_d_returned in Hs.
    destruct (td_run_takes_all RNG rng_next dijkstra_shortest_paths uninitialised
                x rng (samples_per_round k (num_vertices x))
                (max_rounds (num_vertices x)))
      as (HF & _); [lia|apply max_rounds_pos; exact Hlo
                   |apply samples_per_round_covers; assumption|].
    rewrite Hs, HF. split; [reflexivity|].
    apply Forall_forall; intros v Hv; apply in_seq in Hv; lia.
  - destruct (Hret F a H) as [HF _]. exact HF.
Qed.

Lemma thorup_sample_mincost_small_graph_witness :
  [0; 1; 2; 3; 4] = vertices (Reference.path_graph 5 1%Z).
Proof.
  exact (@thorup_sample_mincost_small_graph
           Reference.RNG Reference.rng_seed Reference.rng_next
           Reference.dijkstra_shortest_paths Reference.assert_connected
           Reference.uninitialised 5 (Reference.path_graph 5 1%Z) 1 7%N 3
           [0; 1; 2; 3; 4] [0; 1; 2; 3; 4]
           path5_wf ltac:(lia) ltac:(simpl; lia) ltac:(simpl; lia)
           ltac:(vm_compute; reflexivity)).
Defined.

(** X8.  With [k = 0], or on a graph with a single vertex, no trial
    samples anything ([ceil(42 k log2 n)] samples per round, resp.
    [floor(3 log2 n)] rounds, are zero), and [get_costs] cannot return on
    the empty sample: [thorup_sample_mincost] never returns a result. *)
Theorem thorup_sample_mincost_no_sample
        (RNG : Type) (rng_seed : N -> RNG) (rng_next : RNG -> N * RNG)
        (dijkstra_shortest_paths : Graph -> Vertex -> list edge_cost * list Vertex)
        (assert_connected : Graph -> bool) (uninitialised : nat -> list edge_cost)
        (fuel : nat) (x : Graph) (k : nat) (seed : N) (num_iter : nat)
        (Hwf : wf_graph x) (Hx : 0 < num_vertices x)
        (Hdeg : k = 0 \/ num_vertices x = 1) :
  is_returned (snd (thorup_sample_mincost rng_seed rng_next dijkstra_shortest_paths
                                          assert_connected uninitialised
                                          fuel x k seed num_iter)) = false.
Proof.
  destruct (best_of_trials_shape RNG rng_seed rng_next dijkstra_shortest_paths
              assert_connected uninitialised (fun F => F = [])
              fuel x k seed num_iter Hwf) as [_ Hret].
  - intros rng x' rng' s Hs.
    apply thorup_d_returned in Hs. rewrite Hs.
    rewrite td_run_no_sampling; [split; [reflexivity|constructor]|].
    destruct Hdeg as [->|E]; [left; apply samples_per_round_zero|].
    right. rewrite E. reflexivity.
  - destruct (snd (thorup_sample_mincost rng_seed rng_next dijkstra_shortest_paths
                     assert_connected uninitialised fuel x k seed num_iter))
      as [[F a]|e|]; try reflexivity.
    destruct (Hret F a eq_refl) as (-> & _ & costs & Hg).
    pose proof (get_costs_nothing_to_find dijkstra_shortest_paths fuel x Hx) as Hno.
    rewrite Hg in Hno. discriminate.
Qed.

Lemma thorup_sample_mincost_no_sample_witness :
  is_returned (snd (Run.thorup_sample_mincost 9 (Reference.path_graph 5 1%Z) 0 7%N 3))
  = false.
Proof.
  exact (@thorup_sample_mincost_no_sample
           Reference.RNG Reference.rng_seed Reference.rng_next
           Reference.dijkstra_shortest_paths Reference.assert_connected
           Reference.uninitialised 9 (Reference.path_graph 5 1%Z) 0 7%N 3
           path5_wf ltac:(simpl; lia) (or_introl eq_refl)).
Defined.

Lemma thorup_d_sample_in_graph
      (RNG : Type) (rng_next : RNG -> N * RNG)
      (dijkstra_shortest_paths : Graph -> Vertex -> list edge_cost * list Vertex)
      (assert_connected : Graph -> bool) (uninitialised : nat -> list edge_cost)
      (x : Graph) (rng : RNG) (n m : nat) x' rng' s :
  thorup_d rng_next dijkstra_shortest_paths assert_connected uninitialised x rng n m
  = (x', rng', Returned s) ->
  NoDup (fst s) /\ Forall (fun v => v < num_vertices x) (fst s).
Proof.
  intros Hs. apply thorup_d_returned in Hs. rewrite Hs.
  destruct (td_run_inv rng_next dijkstra_shortest_paths uninitialised x rng n m)
    as (_ & _ & Hnd & Hr).
  split; [apply NoDup_app_remove_r in Hnd; exact Hnd|].
  apply Forall_app in Hr; tauto.
Qed.

(** X9.  On a well-formed graph [thorup_sample_mincost] leaves the graph
    as it found it on every exit: after each trial, after a failed trial,
    and after [get_costs] has returned or thrown. *)
Theorem thorup_sample_mincost_restores
        (RNG : Type) (rng_seed : N -> RNG) (rng_next : RNG -> N * RNG)
        (dijkstra_shortest_paths : Graph -> Vertex -> list edge_cost * list Vertex)
        (assert_connected : Graph -> bool) (uninitialised : nat -> list edge_cost)
        (fuel : nat) (x : Graph) (k : nat) (seed : N) (num_iter : nat)
        (Hwf : wf_graph x)
        (Hexit : is_exit (snd (thorup_sample_mincost
                                 rng_seed rng_next dijkstra_shortest_paths
                                 assert_connected uninitialised
                                 fuel x k seed num_iter)) = true) :
  fst (thorup_sample_mincost rng_seed rng_next dijkstra_shortest_paths
                             assert_connected uninitialised fuel x k seed num_iter)
  = x.
Proof.
  destruct (best_of_trials_shape RNG rng_seed rng_next dijkstra_shortest_paths
              assert_connected uninitialised (fun F => NoDup F)
              fuel x k seed num_iter Hwf) as [Hg _]; [|exact (Hg Hexit)].
  intros rng x' rng' s Hs. eapply thorup_d_sample_in_graph; exact Hs.
Qed.

Lemma thorup_sample_mincost_restores_witness :
  fst (Run.thorup_sample_mincost 9 (Reference.path_graph 5 1%Z) 1 7%N 3)
  = Reference.path_graph 5 1%Z.
Proof.
  exact (@thorup_sample_mincost_restores
           Reference.RNG Reference.rng_seed Reference.rng_next
           Reference.dijkstra_shortest_paths Reference.assert_connected
           Reference.uninitialised 9 (Reference.path_graph 5 1%Z) 1 7%N 3
           path5_wf ltac:(vm_compute; reflexivity)).
Defined.

(** X10.  A pair returned by [thorup_sample_mincost] on a well-formed
    graph is well-formed: the sample holds vertices of the graph, none
    twice, and the assignment has one entry per vertex, each an index into
    the sample. *)
Theorem thorup_sample_mincost_result
        (RNG : Type) (rng_seed : N -> RNG) (rng_next : RNG -> N * RNG)
        (dijkstra_shortest_paths : Graph -> Vertex -> list edge_cost * list Vertex)
        (assert_connected : Graph -> bool) (uninitialised : nat -> list edge_cost)
        (fuel : nat) (x : Graph) (k : nat) (seed : N) (num_iter : nat)
        (F : list Vertex) (a : list nat)
        (Hwf : wf_graph x)
        (H : snd (thorup_sample_mincost rng_seed rng_next dijkstra_shortest_paths
                                        assert_connected uninitialised
                                        fuel x k seed num_iter)
             = Returned (F, a)) :
  NoDup F
  /\ Forall (fun v => v < num_vertices x) F
  /\ length a = num_vertices x
  /\ Forall (fun i => i < length F) a.
Proof.
  destruct (best_of_trials_shape RNG rng_seed rng_next dijkstra_shortest_paths
              assert_connected uninitialised (fun F => NoDup F)
              fuel x k seed num_iter Hwf) as [_ Hret].
  - intros rng x' rng' s Hs. eapply thorup_d_sample_in_graph; exact Hs.
  - destruct (Hret F a H) as (Hnd & Hr & costs & Hg).
    destruct (get_costs_returned_shape _ _ _ _ _ _ Hg) as [Hlen Hall]. auto.
Qed.

Lemma thorup_sample_mincost_result_witness :
  NoDup [0; 1; 2; 3; 4] /\ Forall (fun v => v < 5) [0; 1; 2; 3; 4]
  /\ length [0; 1; 2; 3; 4] = 5 /\ Forall (fun i => i < 5) [0; 1; 2; 3; 4].
Proof.
  exact (@thorup_sample_mincost_result
           Reference.RNG Reference.rng_seed Reference.rng_next
           Reference.dijkstra_shortest_paths Reference.assert_connected
           Reference.uninitialised 5 (Reference.path_graph 5 1%Z) 1 7%N 3
           [0; 1; 2; 3; 4] [0; 1; 2; 3; 4] path5_wf
           ltac:(vm_compute; reflexivity)).
Defined.

(** X11.  Among trials of equal cost the earliest wins: the pair kept by
    the selector is the first one of minimal cost, every pair before it
    costing strictly more and none costing less. *)
Theorem lowest_cost_earliest (first : solution) (rest : list solution) :
  exists before after,
    first :: rest = before ++ lowest_cost first rest :: after
    /\ Forall (fun t => (snd (lowest_cost first rest) < snd t)%Z) before
    /\ Forall (fun t => (snd (lowest_cost first rest) <= snd t)%Z) after.
Proof.
  revert first. induction rest as [|t rest IH]; intros first.
  - exists [], []. repeat split; constructor.
  - change (lowest_cost first (t :: rest))
      with (lowest_cost (keep_best first t) rest).
    destruct (IH (keep_best first t)) as (before & after & Heq & Hb & Ha).
    destruct (lowest_cost_spec (keep_best first t) rest) as [_ Hmin].
    inversion Hmin as [|? ? Hhead _]; subst.
    remember (lowest_cost (keep_best first t) rest) as best eqn:Ebest.
    clear Ebest IH Hmin.
    destruct (keep_best_cases first t) as [[E Hle]|[E Hlt]]; rewrite E in *.
    + destruct before as [|b before'].
      * cbn [app] in Heq. inversion Heq as [[Hf Hrest]].
        exists [], (t :: after). cbn [app].
        split; [reflexivity|split; [constructor|]].
        constructor; [vlia|exact Ha].
      * cbn [app] in Heq. inversion Heq as [[Hf Hrest]].
        exists (b :: t :: before'), after. cbn [app].
        split; [reflexivity|split; [|exact Ha]].
        inversion Hb as [|? ? Hfirst Hb']; subst.
        constructor; [exact Hfirst|]. constructor; [vlia|exact Hb'].
    + exists (first :: before), after. cbn [app].
      split; [rewrite Heq; reflexivity|split; [|exact Ha]].
      constructor; [vlia|exact Hb].
Qed.

(** ** thorup_sample *)

Lemma hs_contains_In v s : hs_contains v s = true <-> In v s.
Proof.
  unfold hs_contains. rewrite existsb_exists. split.
  - intros (u & Hu & E). apply Nat.eqb_eq in E. subst; exact Hu.
  - intros H. exists v. split; [exact H|apply Nat.eqb_refl].
Qed.

Lemma hs_insert_spec s v :
  NoDup s ->
  NoDup (hs_insert s v) /\ (forall u, In u (hs_insert s v) <-> u = v \/ In u s).
Proof.
  intros Hnd. unfold hs_insert.
  destruct (hs_contains v s) eqn:E.
  - apply hs_contains_In in E. split; [exact Hnd|].
    intros u; split; [auto|]. intros [->|H]; assumption.
  - assert (Hnin : ~ In v s).
    { intros H. apply hs_contains_In in H. congruence. }
    split.
    + apply NoDup_app; [exact Hnd|repeat constructor; intros []|].
      intros u Hu [<-|[]]. contradiction.
    + intros u. rewrite in_app_iff. simpl. split.
      * intros [H|[<-|[]]]; auto.
      * intros [->|H]; auto.
Qed.

Lemma hs_insert_range_spec l : forall s,
  NoDup s ->
  NoDup (hs_insert_range l s)
  /\ (forall u, In u (hs_insert_range l s) <-> In u l \/ In u s).
Proof.
  unfold hs_insert_range. induction l as [|v l IH]; intros s Hnd; simpl.
  - split; [exact Hnd|]. intros u; tauto.
  - destruct (hs_insert_spec s v Hnd) as [Hnd1 Hin1].
    destruct (IH _ Hnd1) as [Hnd2 Hin2]. split; [exact Hnd2|].
    intros u. rewrite Hin2, Hin1. intuition (subst; auto).
Qed.

Section ThorupSampleFacts.

Variable RNG : Type.
Variable rng_seed : N -> RNG.
Variable rng_next : RNG -> N * RNG.
Variable dijkstra_shortest_paths : Graph -> Vertex -> list edge_cost * list Vertex.
Variable assert_connected : Graph -> bool.
Variable MT : Type.
Variable mt_seed : N -> MT.
Variable mt_next : MT -> N * MT.
Variable hash_order : list Vertex -> list Vertex.
Variable ts_samples_per_round : nat -> nat -> nat.
Variable ts_rounds : nat -> nat.

Local Abbreviation ts_loop_ :=
  (ts_loop rng_seed rng_next dijkstra_shortest_paths mt_next).

(** The set of samples after the rounds: no member twice, every member
    a vertex; the graph is handed from round to round unchanged. *)
Lemma ts_loop_inv x spr iters max_sampled :
  wf_graph x ->
  forall nr mt (samples : list Vertex),
    NoDup samples -> Forall (fun v => v < num_vertices x) samples ->
    fst (fst (ts_loop_ nr x mt spr iters max_sampled samples)) = x
    /\ NoDup (snd (ts_loop_ nr x mt spr iters max_sampled samples))
    /\ Forall (fun v => v < num_vertices x)
              (snd (ts_loop_ nr x mt spr iters max_sampled samples)).
Proof.
  intros Hwf. induction nr as [|nr IH]; intros mt samples Hnd Hr;
    [simpl; auto|]. cbn [ts_loop].
  destruct (mt_next mt) as [seed mt'].
  pose proof (@sample_from_graph_restores RNG rng_seed rng_next
                dijkstra_shortest_paths x spr iters (@nil Vertex) seed Hwf
                (Forall_nil _))
    as Hrest.
  destruct (sfg_loop_growth RNG rng_next dijkstra_shortest_paths spr
              (num_vertices x) iters
              (mkSfg (fst (add_vertex x)) (vertices x) [] (rng_seed seed)))
    as (new & r & HF & _ & _ & _ & Hin).
  assert (Hbuf : snd (sample_from_graph rng_seed rng_next dijkstra_shortest_paths
                                        x spr iters [] seed) = new).
  { unfold sample_from_graph; simpl. exact HF. }
  destruct (sample_from_graph rng_seed rng_next dijkstra_shortest_paths
                              x spr iters [] seed) as [x' buf].
  simpl in Hrest, Hbuf. subst x' buf.
  destruct (hs_insert_range_spec new samples Hnd) as [Hnd' Hin'].
  assert (Hr' : Forall (fun v => v < num_vertices x) (hs_insert_range new samples)).
  { apply Forall_forall. intros v Hv. apply Hin' in Hv. destruct Hv as [Hv|Hv].
    - rewrite Forall_forall in Hin. specialize (Hin v Hv). simpl in Hin.
      apply in_seq in Hin. lia.
    - rewrite Forall_forall in Hr. auto. }
  destruct (max_sampled <=? length (hs_insert_range new samples)); simpl;
    [auto|apply IH; assumption].
Qed.

Lemma thorup_sample_graph x k seed max_sampled :
  wf_graph x ->
  fst (thorup_sample rng_seed rng_next dijkstra_shortest_paths assert_connected
                     mt_seed mt_next hash_order ts_samples_per_round ts_rounds
                     x k seed max_sampled) = x.
Proof.
  intros Hwf. unfold thorup_sample.
  destruct (assert_connected x); simpl; [|reflexivity].
  match goal with |- context [ts_loop_ ?nr x ?mt ?spr ?it ?ms []] =>
    destruct (ts_loop_inv x spr it ms Hwf nr mt (@nil Vertex) (NoDup_nil _)
                         (Forall_nil _))
      as (Hg & _);
    destruct (ts_loop_ nr x mt spr it ms []) as [[x' mt'] samples] end.
  simpl in *. exact Hg.
Qed.

Lemma thorup_sample_vector x k seed max_sampled r :
  wf_graph x ->
  (forall s, Permutation (hash_order s) s) ->
  snd (thorup_sample rng_seed rng_next dijkstra_shortest_paths assert_connected
                     mt_seed mt_next hash_order ts_samples_per_round ts_rounds
                     x k seed max_sampled) = Returned r ->
  NoDup r
  /\ Forall (fun v => v < num_vertices x) r
  /\ length r <= num_vertices x
  /\ (max_sampled <> 0 -> length r <= max_sampled).
Proof.
  intros Hwf Horder. unfold thorup_sample.
  destruct (assert_connected x); simpl; [|discriminate].
  match goal with |- context [ts_loop_ ?nr x ?mt ?spr ?it ?ms []] =>
    destruct (ts_loop_inv x spr it ms Hwf nr mt (@nil Vertex) (NoDup_nil _)
                         (Forall_nil _))
      as (_ & Hnd & Hr);
    destruct (ts_loop_ nr x mt spr it ms []) as [[x' mt'] samples] end.
  simpl in *. intros E.
  set (ms := if max_sampled =? 0 then num_vertices x else max_sampled) in *.
  assert (Er : r = if ms <? length samples
                   then firstn ms (hash_order samples) else hash_order samples)
    by (inversion E; reflexivity).
  clear E.
  pose proof (Horder samples) as Hp.
  assert (Hnd' : NoDup (hash_order samples)).
  { eapply Permutation_NoDup; [apply Permutation_sym, Hp|exact Hnd]. }
  assert (Hr' : Forall (fun v => v < num_vertices x) (hash_order samples)).
  { eapply Permutation_Forall; [apply Permutation_sym, Hp|exact Hr]. }
  pose proof (Permutation_length Hp) as Hlen.
  assert (Hall : forall m, NoDup (firstn m (hash_order samples))
                           /\ Forall (fun v => v < num_vertices x)
                                     (firstn m (hash_order samples))).
  { intros m. rewrite <- (firstn_skipn m (hash_order samples)) in Hnd', Hr'.
    split; [apply NoDup_app_remove_r in Hnd'; exact Hnd'|].
    apply Forall_app in Hr'; tauto. }
  assert (Hshape : NoDup r /\ Forall (fun v => v < num_vertices x) r
                   /\ length r <= ms).
  { rewrite Er. destruct (Nat.ltb_spec ms (length samples)).
    - destruct (Hall ms) as [H1 H2]. split; [exact H1|split; [exact H2|]].
      rewrite length_firstn. lia.
    - split; [exact Hnd'|split; [exact Hr'|lia]]. }
  destruct Hshape as (H1 & H2 & H3). split; [exact H1|split; [exact H2|]].
  assert (Hn : length r <= num_vertices x).
  { rewrite <- (length_seq (num_vertices x) 0).
    apply NoDup_incl_length; [exact H1|].
    intros v Hv. rewrite Forall_forall in H2. apply in_seq. specialize (H2 v Hv). lia. }
  split; [exact Hn|]. intros Hms. unfold ms in H3.
  destruct (Nat.eqb_spec max_sampled 0); [contradiction|exact H3].
Qed.

End ThorupSampleFacts.

(** X12.  On a well-formed graph that passes the connectivity check,
    [thorup_sample] returns a vector without repeated handles, all of
    them vertices of the graph, hence no longer than the vertex count,
    and no longer than [max_sampled] when that is not zero; this holds in
    whatever order the hash set is iterated. *)
Theorem thorup_sample_result
        (RNG : Type) (rng_seed : N -> RNG) (rng_next : RNG -> N * RNG)
        (dijkstra_shortest_paths : Graph -> Vertex -> list edge_cost * list Vertex)
        (assert_connected : Graph -> bool)
        (MT : Type) (mt_seed : N -> MT) (mt_next : MT -> N * MT)
        (hash_order : list Vertex -> list Vertex)
        (ts_samples_per_round : nat -> nat -> nat) (ts_rounds : nat -> nat)
        (x : Graph) (k : nat) (seed : N) (max_sampled : nat) (r : list Vertex)
        (Hwf : wf_graph x)
        (Horder : forall s, Permutation (hash_order s) s)
        (H : snd (thorup_sample rng_seed rng_next dijkstra_shortest_paths
                                assert_connected mt_seed mt_next hash_order
                                ts_samples_per_round ts_rounds
                                x k seed max_sampled) = Returned r) :
  NoDup r
  /\ Forall (fun v => v < num_vertices x) r
  /\ length r <= num_vertices x
  /\ (max_sampled <> 0 -> length r <= max_sampled).
Proof.
  exact (thorup_sample_vector RNG rng_seed rng_next dijkstra_shortest_paths
           assert_connected MT mt_seed mt_next hash_order ts_samples_per_round
           ts_rounds x k seed max_sampled r Hwf Horder H).
Qed.

Lemma thorup_sample_result_witness :
  NoDup [2; 5] /\ Forall (fun v => v < 6) [2; 5] /\ length [2; 5] <= 6
  /\ (2 <> 0 -> length [2; 5] <= 2).
Proof.
  exact (@thorup_sample_result
           Reference.RNG Reference.rng_seed Reference.rng_next
           Reference.dijkstra_shortest_paths Reference.assert_connected
           Reference.RNG Reference.rng_seed Reference.rng_next (fun s => s)
           (fun k n => 21 * k * Nat.log2_up n * Nat.log2_up n)
           (fun n => Nat.log2_up n * Nat.log2_up n)
           (Reference.path_graph 6 1%Z) 1 7%N 2 [2; 5]
           ltac:(repeat constructor) (fun s => Permutation_refl s)
           ltac:(vm_compute; reflexivity)).
Defined.

(** X13.  On a well-formed graph [thorup_sample] leaves the graph as it
    found it, whether it returns or stops at the connectivity check:
    every round's synthetic vertex is gone before the next round. *)
Theorem thorup_sample_restores
        (RNG : Type) (rng_seed : N -> RNG) (rng_next : RNG -> N * RNG)
        (dijkstra_shortest_paths : Graph -> Vertex -> list edge_cost * list Vertex)
        (assert_connected : Graph -> bool)
        (MT : Type) (mt_seed : N -> MT) (mt_next : MT -> N * MT)
        (hash_order : list Vertex -> list Vertex)
        (ts_samples_per_round : nat -> nat -> nat) (ts_rounds : nat -> nat)
        (x : Graph) (k : nat) (seed : N) (max_sampled : nat)
        (Hwf : wf_graph x) :
  fst (thorup_sample rng_seed rng_next dijkstra_shortest_paths assert_connected
                     mt_seed mt_next hash_order ts_samples_per_round ts_rounds
                     x k seed max_sampled) = x.
Proof.
  exact (thorup_sample_graph RNG rng_seed rng_next dijkstra_shortest_paths
           assert_connected MT mt_seed mt_next hash_order ts_samples_per_round
           ts_rounds x k seed max_sampled Hwf).
Qed.

Lemma thorup_sample_restores_witness :
  fst (RunMore.thorup_sample (Reference.path_graph 6 1%Z) 1 7%N 2)
  = Reference.path_graph 6 1%Z.
Proof.
  exact (@thorup_sample_restores
           Reference.RNG Reference.rng_seed Reference.rng_next
           Reference.dijkstra_shortest_paths Reference.assert_connected
           Reference.RNG Reference.rng_seed Reference.rng_next (fun s => s)
           (fun k n => 21 * k * Nat.log2_up n * Nat.log2_up n)
           (fun n => Nat.log2_up n * Nat.log2_up n)
           (Reference.path_graph 6 1%Z) 1 7%N 2 ltac:(repeat constructor)).
Defined.

(** ** random_sample and idnc *)

Section TnkFacts.

Variable RNG : Type.
Variable rng_seed : N -> RNG.
Variable rng_next : RNG -> N * RNG.

Local Abbreviation rs_loop_ := (rs_loop rng_next).

(** The loop keeps [ret] free of repetitions and inside [v], and leaves
    with exactly [n] members. *)
Lemma rs_loop_result (v : list Vertex) n : forall fuel gen (ret r : list Vertex),
  v <> [] -> NoDup ret -> incl ret v -> length ret <= n ->
  rs_loop_ fuel v n gen ret = Some r ->
  NoDup r /\ incl r v /\ length r = n.
Proof.
  intros fuel; induction fuel as [|fuel IH]; intros gen ret r Hv Hnd Hincl Hlen;
    cbn [rs_loop].
  - destruct (Nat.ltb_spec (length ret) n); [discriminate|].
    intros E; inversion E; subst. repeat split; auto. lia.
  - destruct (Nat.ltb_spec (length ret) n) as [Hlt|Hge].
    + destruct (draw rng_next gen (length v)) as [j gen'] eqn:Ed.
      assert (Hj : j < length v).
      { change j with (fst (j, gen')). rewrite <- Ed. apply draw_lt.
        destruct v; [congruence|discriminate]. }
      destruct (hs_contains (nth j v 0) ret) eqn:Ec.
      * apply IH; assumption.
      * apply IH; try assumption.
        -- apply NoDup_app; [exact Hnd|repeat constructor; intros []|].
           intros u Hu [<-|[]]. apply hs_contains_In in Hu. congruence.
        -- intros u Hu. apply in_app_or in Hu. destruct Hu as [Hu|[<-|[]]];
             [auto|apply nth_In; exact Hj].
        -- rewrite length_app. simpl. lia.
    + intros E; inversion E; subst. repeat split; auto. lia.
Qed.

(** With fewer than [n] distinct values to find, the loop cannot leave. *)
Lemma rs_loop_starved (v : list Vertex) n :
  v <> [] -> length (nodup Nat.eq_dec v) < n ->
  forall fuel gen (ret : list Vertex),
    NoDup ret -> incl ret v -> rs_loop_ fuel v n gen ret = None.
Proof.
  intros Hv Hfew fuel; induction fuel as [|fuel IH]; intros gen ret Hnd Hincl;
    cbn [rs_loop];
    assert (Hlen : length ret <= length (nodup Nat.eq_dec v))
      by (apply NoDup_incl_length; [exact Hnd|];
          intros u Hu; apply nodup_In; auto);
    rewrite (proj2 (Nat.ltb_lt (length ret) n)) by lia; [reflexivity|].
  destruct (draw rng_next gen (length v)) as [j gen'] eqn:Ed.
  assert (Hj : j < length v).
  { change j with (fst (j, gen')). rewrite <- Ed. apply draw_lt.
    destruct v; [congruence|discriminate]. }
  destruct (hs_contains (nth j v 0) ret) eqn:Ec; [apply IH; assumption|].
  apply IH.
  - apply NoDup_app; [exact Hnd|repeat constructor; intros []|].
    intros u Hu [<-|[]]. apply hs_contains_In in Hu. congruence.
  - intros u Hu. apply in_app_or in Hu. destruct Hu as [Hu|[<-|[]]];
      [auto|apply nth_In; exact Hj].
Qed.

Lemma random_sample_finished fuel (v : list Vertex) n seed r :
  random_sample rng_seed rng_next fuel v n seed = Finished r ->
  n < length v /\ length r = n /\ NoDup r /\ incl r v.
Proof.
  unfold random_sample.
  destruct (Nat.leb_spec (length v) n) as [Hle|Hlt]; [discriminate|].
  destruct (rs_loop_ fuel v n (rng_seed seed) []) as [ret|] eqn:E; [|discriminate].
  intros H; inversion H; subst ret.
  destruct (rs_loop_result v n fuel (rng_seed seed) [] r) as (Hnd & Hincl & Hlen);
    auto.
  - destruct v; [simpl in Hlt; lia|discriminate].
  - constructor.
  - intros u [].
  - simpl; lia.
Qed.

Lemma random_sample_throws fuel (v : list Vertex) n seed :
  length v <= n ->
  random_sample rng_seed rng_next fuel v n seed = Raised (ThrownInt 1).
Proof.
  intros Hle. unfold random_sample.
  rewrite (proj2 (Nat.leb_le (length v) n) Hle). reflexivity.
Qed.

End TnkFacts.

(** X14.  [random_sample(v, n, seed)] throws [1] when [n] is not below
    the size of [v], the empty [v] included; when it returns, the result
    has exactly [n] entries, all of them entries of [v] and no two
    equal. *)
Theorem random_sample_result
        (RNG : Type) (rng_seed : N -> RNG) (rng_next : RNG -> N * RNG)
        (fuel : nat) (v : list Vertex) (n : nat) (seed : N) :
  (length v <= n ->
   random_sample rng_seed rng_next fuel v n seed = Raised (ThrownInt 1))
  /\ (forall r,
         random_sample rng_seed rng_next fuel v n seed = Finished r ->
         n < length v /\ length r = n /\ NoDup r /\ incl r v).
Proof.
  split.
  - apply random_sample_throws.
  - intros r. apply random_sample_finished.
Qed.

Lemma random_sample_result_witness :
  RunMore.random_sample 50 [4; 7] 2 7%N = Raised (ThrownInt 1).
Proof.
  exact (proj1 (random_sample_result Reference.RNG Reference.rng_seed
                                     Reference.rng_next 50 [4; 7] 2 7%N)
               ltac:(simpl; lia)).
Defined.

(** X15.  When [v] holds fewer than [n] distinct values, although more
    than [n] entries, [random_sample] never returns: the result would need
    [n] distinct entries and the loop has no other exit. *)
Theorem random_sample_starved
        (RNG : Type) (rng_seed : N -> RNG) (rng_next : RNG -> N * RNG)
        (fuel : nat) (v : list Vertex) (n : nat) (seed : N)
        (Hn : n < length v)
        (Hfew : length (nodup Nat.eq_dec v) < n) :
  random_sample rng_seed rng_next fuel v n seed = Unending.
Proof.
  unfold random_sample.
  rewrite (proj2 (Nat.leb_gt (length v) n) Hn).
  rewrite (rs_loop_starved RNG rng_next v n); auto.
  - destruct v; [simpl in Hn; lia|discriminate].
  - constructor.
  - intros u [].
Qed.

Lemma random_sample_starved_witness :
  RunMore.random_sample 50 [3; 3; 3] 2 7%N = Unending.
Proof.
  exact (@random_sample_starved Reference.RNG Reference.rng_seed Reference.rng_next
           50 [3; 3; 3] 2 7%N ltac:(simpl; lia) ltac:(vm_compute; lia)).
Defined.



(** ** The road-length exporter *)

Section RoadLengthFacts.

Variable Location : Type.
Variable Dist : Type.
Variable dist_zero : Dist.
Variable dist_add : Dist -> Dist -> Dist.
Variable haversine : Location -> Location -> Dist.
Variable haversine_nodes : list (RoadLength.NodeRef Location) -> Dist.

Local Abbreviation refs ns := (map (@RoadLength.ref Location) ns).
Local Abbreviation way := (RoadLength.way dist_add haversine haversine_nodes).
Local Abbreviation apply_ways :=
  (RoadLength.apply_ways dist_add haversine haversine_nodes).

Lemma ids_contains_In (i : RoadLength.id_int_t) (s : list RoadLength.id_int_t) :
  RoadLength.ids_contains i s = true <-> In i s.
Proof.
  unfold RoadLength.ids_contains. rewrite existsb_exists. split.
  - intros [x [Hx E]]. apply Z.eqb_eq in E. subst x. exact Hx.
  - intros H. exists i. split; [exact H | apply Z.eqb_refl].
Qed.

Lemma ids_insert_In (s : list RoadLength.id_int_t) (i j : RoadLength.id_int_t) :
  In j (RoadLength.ids_insert s i) <-> In j s \/ j = i.
Proof.
  unfold RoadLength.ids_insert.
  destruct (RoadLength.ids_contains i s) eqn:E.
  - apply ids_contains_In in E. split; [auto |].
    intros [H | H]; [exact H | subst j; exact E].
  - rewrite in_app_iff. simpl. split.
    + intros [H | [H | []]]; auto.
    + intros [H | H]; auto.
Qed.

Lemma ids_insert_NoDup (s : list RoadLength.id_int_t) (i : RoadLength.id_int_t) :
  NoDup s -> NoDup (RoadLength.ids_insert s i).
Proof.
  intros H. unfold RoadLength.ids_insert.
  destruct (RoadLength.ids_contains i s) eqn:E; [exact H |].
  apply (Permutation_NoDup (Permutation_cons_append s i)).
  constructor; [| exact H].
  intros Hin. apply ids_contains_In in Hin. congruence.
Qed.

Lemma way_segments_spec (ns : list (RoadLength.NodeRef Location)) :
  forall ids es ids' es',
    RoadLength.way_segments haversine ns ids es = (ids', es') ->
    (NoDup ids -> NoDup ids') /\
    (forall j, In j ids' <-> In j ids \/ In j (refs (removelast ns))) /\
    exists new, es' = es ++ new /\ length new = length ns - 1 /\
      forall e, In e new ->
        In (RoadLength.lhs_ e) (refs ns) /\ In (RoadLength.rhs_ e) (refs ns).
Proof.
  induction ns as [| a rest IH]; intros ids es ids' es' E.
  - simpl in E. inversion E; subst. split; [auto |]. split.
    + intros j. simpl. tauto.
    + exists []. rewrite app_nil_r. simpl. repeat split; contradiction.
  - destruct rest as [| b rest'].
    + simpl in E. inversion E; subst. split; [auto |]. split.
      * intros j. simpl. tauto.
      * exists []. rewrite app_nil_r. simpl. repeat split; contradiction.
    + cbn [RoadLength.way_segments] in E.
      apply IH in E. destruct E as [Hnd [Hin [new [Hes [Hlen Hends]]]]].
      split; [| split].
      * intros H. apply Hnd. apply ids_insert_NoDup. exact H.
      * intros j. rewrite Hin. rewrite ids_insert_In.
        change (removelast (a :: b :: rest')) with (a :: removelast (b :: rest')).
        simpl map. simpl In. split.
        -- intros [[H | H] | H]; auto.
        -- intros [H | [H | H]]; auto.
      * exists (RoadLength.mkEdgeD (RoadLength.ref a) (RoadLength.ref b)
                  (haversine (RoadLength.location a) (RoadLength.location b)) :: new).
        split; [rewrite Hes, <- app_assoc; reflexivity |].
        split; [simpl in *; lia |].
        intros e [He | He].
        -- subst e. simpl. auto.
        -- destruct (Hends e He) as [H1 H2]. split; right; assumption.
Qed.

Lemma refs_last (ns : list (RoadLength.NodeRef Location)) (j : RoadLength.id_int_t) :
  ns <> [] ->
  (In j (refs ns) <-> In j (refs (removelast ns)) \/ j = last (refs ns) 0%Z).
Proof.
  intros Hne.
  rewrite (app_removelast_last 0%Z (l := refs ns)) at 1
    by (destruct ns; [congruence | discriminate]).
  rewrite in_app_iff. simpl.
  assert (E : removelast (refs ns) = refs (removelast ns)).
  { clear Hne. induction ns as [| a [| b r] IH]; try reflexivity.
    change (removelast (refs (a :: b :: r)))
      with (RoadLength.ref a :: removelast (refs (b :: r))).
    rewrite IH. reflexivity. }
  rewrite E. split.
  - intros [H | [H | []]]; auto.
  - intros [H | H]; auto.
Qed.

Lemma way_spec (h h' : RoadLength.RoadLengthHandler Dist)
      (w : RoadLength.Way Location) :
  way h w = Some h' ->
  (NoDup (RoadLength.node_ids_ h) -> NoDup (RoadLength.node_ids_ h')) /\
  (forall j, In j (RoadLength.node_ids_ h') <->
             In j (RoadLength.node_ids_ h) \/
             In j (RoadLength.highway_nodes [w])) /\
  (RoadLength.edges_closed h -> RoadLength.edges_closed h') /\
  length (RoadLength.edges_ h') =
    length (RoadLength.edges_ h) + RoadLength.highway_segments [w].
Proof.
  unfold RoadLength.way, RoadLength.highway_nodes, RoadLength.highway_segments.
  simpl flat_map. simpl map. simpl list_sum. rewrite app_nil_r.
  destruct (RoadLength.highway w); simpl negb; cbv iota.
  2:{ intros E. inversion E; subst h'. split; [auto |]. split.
      - intros j. simpl. tauto.
      - split; [auto | lia]. }
  destruct (RoadLength.nodes w) as [| a r] eqn:En; [discriminate |].
  destruct (RoadLength.way_segments haversine (a :: r) _ _) as [ids' es'] eqn:Ews.
  intros E. inversion E; subst h'. clear E. cbn [RoadLength.node_ids_ RoadLength.edges_].
  apply way_segments_spec in Ews.
  destruct Ews as [Hnd [Hin [new [Hes [Hlen Hends]]]]].
  assert (Hmem : forall j, In j ids' <->
                 In j (RoadLength.node_ids_ h) \/ In j (refs (a :: r))).
  { intros j. rewrite Hin, ids_insert_In.
    rewrite (refs_last (a :: r) j) by discriminate. tauto. }
  split; [| split; [| split]].
  - intros H. apply Hnd. apply ids_insert_NoDup. exact H.
  - exact Hmem.
  - intros Hc e He. cbn [RoadLength.node_ids_ RoadLength.edges_] in *.
    rewrite Hes in He. apply in_app_or in He. destruct He as [He | He].
    + destruct (Hc e He) as [H1 H2]. split; apply Hmem; left; assumption.
    + destruct (Hends e He) as [H1 H2]. split; apply Hmem; right; assumption.
  - rewrite Hes, length_app, Hlen. lia.
Qed.

Lemma apply_ways_spec (ws : list (RoadLength.Way Location)) :
  forall h h',
    apply_ways ws h = Some h' ->
    (NoDup (RoadLength.node_ids_ h) -> NoDup (RoadLength.node_ids_ h')) /\
    (forall j, In j (RoadLength.node_ids_ h') <->
               In j (RoadLength.node_ids_ h) \/
               In j (RoadLength.highway_nodes ws)) /\
    (RoadLength.edges_closed h -> RoadLength.edges_closed h') /\
    length (RoadLength.edges_ h') =
      length (RoadLength.edges_ h) + RoadLength.highway_segments ws.
Proof.
  induction ws as [| w rest IH]; intros h h' E.
  - simpl in E. inversion E; subst h'. split; [auto |]. split.
    + intros j. simpl. tauto.
    + split; [auto |]. unfold RoadLength.highway_segments. simpl. lia.
  - cbn [RoadLength.apply_ways] in E.
    destruct (way h w) as [h1 |] eqn:Ew; [| discriminate].
    apply way_spec in Ew. destruct Ew as [A1 [A2 [A3 A4]]].
    apply IH in E. destruct E as [B1 [B2 [B3 B4]]].
    split; [auto |]. split; [| split; [auto |]].
    + intros j. rewrite B2, A2.
      unfold RoadLength.highway_nodes. simpl flat_map.
      rewrite app_nil_r, in_app_iff. tauto.
    + rewrite B4, A4. unfold RoadLength.highway_segments. simpl. lia.
Qed.

Lemma apply_ways_new (ws : list (RoadLength.Way Location))
      (h : RoadLength.RoadLengthHandler Dist) :
  apply_ways ws (RoadLength.new_handler dist_zero) = Some h ->
  NoDup (RoadLength.node_ids_ h) /\
  (forall j, In j (RoadLength.node_ids_ h) <->
             In j (RoadLength.highway_nodes ws)) /\
  RoadLength.edges_closed h /\
  length (RoadLength.edges_ h) = RoadLength.highway_segments ws.
Proof.
  intros E. apply apply_ways_spec in E. destruct E as [A1 [A2 [A3 A4]]].
  split; [apply A1; constructor |]. split; [| split].
  - intros j. rewrite A2. simpl. tauto.
  - apply A3. intros e [].
  - rewrite A4. reflexivity.
Qed.

(** X17. [RoadLengthHandler::way], applied to the ways of a file: the
    collected node ids are exactly the nodes of the ways tagged
    [highway], each once; every edge joins two collected nodes; and there
    is one edge for every segment of such a way. *)
Theorem road_length_handler_collects (ws : list (RoadLength.Way Location))
        (h : RoadLength.RoadLengthHandler Dist) :
  apply_ways ws (RoadLength.new_handler dist_zero) = Some h ->
  NoDup (RoadLength.node_ids_ h) /\
  (forall j, In j (RoadLength.node_ids_ h) <->
             exists w, In w ws /\ RoadLength.highway w = true /\
                       In j (refs (RoadLength.nodes w))) /\
  (forall e, In e (RoadLength.edges_ h) ->
     In (RoadLength.lhs_ e) (RoadLength.node_ids_ h) /\
     In (RoadLength.rhs_ e) (RoadLength.node_ids_ h)) /\
  length (RoadLength.edges_ h) = RoadLength.highway_segments ws.
Proof.
  intros E. apply apply_ways_new in E. destruct E as [A1 [A2 [A3 A4]]].
  split; [exact A1 |]. split; [| split; [exact A3 | exact A4]].
  intros j. rewrite A2. unfold RoadLength.highway_nodes.
  rewrite in_flat_map. split.
  - intros [w [Hw Hj]]. exists w. split; [exact Hw |].
    destruct (RoadLength.highway w); [auto | contradiction].
  - intros [w [Hw [Hh Hj]]]. exists w. split; [exact Hw |].
    rewrite Hh. exact Hj.
Qed.

End RoadLengthFacts.

Lemma reassign_spec (ids : list RoadLength.id_int_t) :
  forall start m lines,
    RoadLength.reassign ids (Z.of_nat start) m lines =
      (rev (combine ids (map Z.of_nat (seq start (length ids)))) ++ m,
       lines ++ combine ids (map Z.of_nat (seq start (length ids)))).
Proof.
  induction ids as [| i rest IH]; intros start m lines.
  - simpl. rewrite app_nil_r. reflexivity.
  - cbn [RoadLength.reassign].
    replace (Z.of_nat start + 1)%Z with (Z.of_nat (S start)) by lia.
    rewrite IH. simpl. rewrite <- !app_assoc. reflexivity.
Qed.

Lemma reassigner_at_In (m : list (RoadLength.id_int_t * RoadLength.id_int_t))
      (k v : RoadLength.id_int_t) :
  NoDup (map fst m) -> In (k, v) m -> RoadLength.reassigner_at m k = v.
Proof.
  induction m as [| [k' v'] rest IH]; intros Hnd Hin; [contradiction |].
  simpl in Hnd. inversion Hnd as [| ? ? Hnot Hnd']; subst.
  simpl. destruct Hin as [Hin | Hin].
  - inversion Hin; subst. rewrite Z.eqb_refl. reflexivity.
  - destruct (k' =? k)%Z eqn:Ek.
    + apply Z.eqb_eq in Ek. subst k'. exfalso. apply Hnot.
      apply (in_map fst) in Hin. exact Hin.
    + apply IH; assumption.
Qed.

Lemma numbered_In (ids : list RoadLength.id_int_t) (k : RoadLength.id_int_t) :
  In k ids ->
  exists v, In (k, v) (combine ids (map Z.of_nat (seq 0 (length ids)))) /\
            (0 <= v < Z.of_nat (length ids))%Z.
Proof.
  intros Hin. destruct (In_nth ids k 0%Z Hin) as [i [Hi Ek]].
  exists (Z.of_nat i). split; [| lia].
  assert (E : nth i (combine ids (map Z.of_nat (seq 0 (length ids)))) (0%Z, 0%Z)
              = (k, Z.of_nat i)).
  { rewrite combine_nth by (rewrite length_map, length_seq; reflexivity).
    f_equal; [exact Ek |].
    change 0%Z with (Z.of_nat 0). rewrite map_nth.
    rewrite seq_nth by exact Hi. reflexivity. }
  rewrite <- E. apply nth_In.
  rewrite length_combine, length_map, length_seq. lia.
Qed.

(** X18. The renumbering of [main]: the node ids, in the order in which
    the set is iterated, receive the numbers [0 .. n-1]; the counts of
    the problem line are the numbers of nodes and of arcs written; and
    every arc is an edge with both ends replaced by their new numbers,
    which lie in [0 .. n-1]. *)
Theorem write_dimacs_renumbers
        (Location Dist : Type) (dist_zero : Dist) (dist_add : Dist -> Dist -> Dist)
        (haversine : Location -> Location -> Dist)
        (haversine_nodes : list (RoadLength.NodeRef Location) -> Dist)
        (iteration_order : list RoadLength.id_int_t -> list RoadLength.id_int_t)
        (ws : list (RoadLength.Way Location))
        (h : RoadLength.RoadLengthHandler Dist) :
  (forall s, Permutation (iteration_order s) s) ->
  RoadLength.apply_ways dist_add haversine haversine_nodes ws
                        (RoadLength.new_handler dist_zero) = Some h ->
  let out := RoadLength.write_dimacs iteration_order h in
  let n := length (RoadLength.node_ids_ h) in
  RoadLength.problem_nodes out = length (RoadLength.renumbering out) /\
  RoadLength.problem_arcs out = length (RoadLength.arcs out) /\
  map fst (RoadLength.renumbering out) = iteration_order (RoadLength.node_ids_ h) /\
  map snd (RoadLength.renumbering out) = map Z.of_nat (seq 0 n) /\
  Forall2 (fun e a =>
             In (RoadLength.lhs_ e, fst (fst a)) (RoadLength.renumbering out) /\
             In (RoadLength.rhs_ e, snd (fst a)) (RoadLength.renumbering out) /\
             (0 <= fst (fst a) < Z.of_nat n)%Z /\
             (0 <= snd (fst a) < Z.of_nat n)%Z /\
             snd a = RoadLength.dist_ e)
          (RoadLength.edges_ h) (RoadLength.arcs out).
Proof.
  intros Hperm E out n. apply apply_ways_new in E.
  destruct E as [Hnd [_ [Hclosed _]]].
  set (ids := iteration_order (RoadLength.node_ids_ h)).
  assert (Hlen : length ids = n)
    by (apply Permutation_length, Hperm).
  assert (Hout : out = RoadLength.mkDimacs n (length (RoadLength.edges_ h))
            (combine ids (map Z.of_nat (seq 0 n)))
            (map (fun e =>
                    (RoadLength.reassigner_at
                       (rev (combine ids (map Z.of_nat (seq 0 n)))) (RoadLength.lhs_ e),
                     RoadLength.reassigner_at
                       (rev (combine ids (map Z.of_nat (seq 0 n)))) (RoadLength.rhs_ e),
                     RoadLength.dist_ e))
                 (RoadLength.edges_ h))).
  { unfold out, RoadLength.write_dimacs. fold ids.
    change 0%Z with (Z.of_nat 0). rewrite reassign_spec, Hlen.
    rewrite app_nil_r. reflexivity. }
  rewrite Hout. cbn [RoadLength.problem_nodes RoadLength.problem_arcs
                     RoadLength.renumbering RoadLength.arcs].
  assert (Hls : length (map Z.of_nat (seq 0 n)) = length ids)
    by (rewrite length_map, length_seq; symmetry; exact Hlen).
  assert (Hfst : map fst (combine ids (map Z.of_nat (seq 0 n))) = ids).
  { clear -Hls. revert Hls. generalize (map Z.of_nat (seq 0 n)).
    induction ids as [| i r IH]; intros [| z zs] H; try discriminate; [reflexivity |].
    simpl. f_equal. apply IH. simpl in H. congruence. }
  assert (Hsnd : map snd (combine ids (map Z.of_nat (seq 0 n)))
                 = map Z.of_nat (seq 0 n)).
  { clear -Hls. revert Hls. generalize (map Z.of_nat (seq 0 n)).
    induction ids as [| i r IH]; intros [| z zs] H; try discriminate; [reflexivity |].
    simpl. f_equal. apply IH. simpl in H. congruence. }
  split; [rewrite length_combine, Hls; lia |].
  split; [rewrite length_map; reflexivity |].
  split; [exact Hfst |]. split; [exact Hsnd |].
  assert (Hndm : NoDup (map fst (rev (combine ids (map Z.of_nat (seq 0 n)))))).
  { rewrite map_rev, Hfst. apply NoDup_rev.
    apply (Permutation_NoDup (Permutation_sym (Hperm _))). exact Hnd. }
  assert (Hkey : forall k, In k (RoadLength.node_ids_ h) ->
            In (k, RoadLength.reassigner_at
                     (rev (combine ids (map Z.of_nat (seq 0 n)))) k)
               (combine ids (map Z.of_nat (seq 0 n))) /\
            (0 <= RoadLength.reassigner_at
                    (rev (combine ids (map Z.of_nat (seq 0 n)))) k
             < Z.of_nat n)%Z).
  { intros k Hk.
    assert (Hk' : In k ids)
      by (apply (Permutation_in k (Permutation_sym (Hperm _))); exact Hk).
    destruct (numbered_In ids k Hk') as [v [Hv Hb]]. rewrite Hlen in Hv, Hb.
    rewrite (reassigner_at_In _ k v Hndm) by (apply in_rev; rewrite rev_involutive; exact Hv).
    split; assumption. }
  clear Hout out.
  assert (Hall : Forall (fun e => In (RoadLength.lhs_ e) (RoadLength.node_ids_ h) /\
                                  In (RoadLength.rhs_ e) (RoadLength.node_ids_ h))
                        (RoadLength.edges_ h))
    by (apply Forall_forall; exact Hclosed).
  induction Hall as [| e es [H1 H2] _ IH]; [constructor |].
  simpl map. constructor; [| exact IH]. cbn [fst snd].
  destruct (Hkey _ H1) as [K1 B1]. destruct (Hkey _ H2) as [K2 B2].
  repeat split; solve [assumption | apply B1 | apply B2].
Qed.

Lemma road_length_handler_collects_witness :
  let h := RoadLength.Example.collected in
  NoDup (RoadLength.node_ids_ h) /\
  (forall j, In j (RoadLength.node_ids_ h) <->
             exists w, In w RoadLength.Example.ways /\
                       RoadLength.highway w = true /\
                       In j (map (@RoadLength.ref unit) (RoadLength.nodes w))) /\
  (forall e, In e (RoadLength.edges_ h) ->
     In (RoadLength.lhs_ e) (RoadLength.node_ids_ h) /\
     In (RoadLength.rhs_ e) (RoadLength.node_ids_ h)) /\
  length (RoadLength.edges_ h) =
    RoadLength.highway_segments RoadLength.Example.ways.
Proof.
  exact (road_length_handler_collects unit Z 0%Z Z.add (fun _ _ => 1%Z)
           (fun ns => Z.of_nat (length ns) - 1)%Z
           RoadLength.Example.ways RoadLength.Example.collected
           ltac:(vm_compute; reflexivity)).
Defined.

Lemma write_dimacs_renumbers_witness :
  let h := RoadLength.Example.collected in
  let out := RoadLength.write_dimacs (@rev RoadLength.id_int_t) h in
  let n := length (RoadLength.node_ids_ h) in
  RoadLength.problem_nodes out = length (RoadLength.renumbering out) /\
  RoadLength.problem_arcs out = length (RoadLength.arcs out) /\
  map fst (RoadLength.renumbering out) = rev (RoadLength.node_ids_ h) /\
  map snd (RoadLength.renumbering out) = map Z.of_nat (seq 0 n) /\
  Forall2 (fun e a =>
             In (RoadLength.lhs_ e, fst (fst a)) (RoadLength.renumbering out) /\
             In (RoadLength.rhs_ e, snd (fst a)) (RoadLength.renumbering out) /\
             (0 <= fst (fst a) < Z.of_nat n)%Z /\
             (0 <= snd (fst a) < Z.of_nat n)%Z /\
             snd a = RoadLength.dist_ e)
          (RoadLength.edges_ h) (RoadLength.arcs out).
Proof.
  exact (write_dimacs_renumbers unit Z 0%Z Z.add (fun _ _ => 1%Z)
           (fun ns => Z.of_nat (length ns) - 1)%Z (@rev RoadLength.id_int_t)
           RoadLength.Example.ways RoadLength.Example.collected
           (fun s => Permutation_sym (Permutation_rev s))
           ltac:(vm_compute; reflexivity)).
Defined.
